(** * Streaming chat session engine of the Deep Research frontend

    A shallow embedding of [frontend/src/api.ts] (the SSE reader loop of
    [sendChatMessage]) and of the [App] component (conversation store,
    [sendMessage] and its callbacks), with the properties of the
    natural-language specification stated over it.

    Conventions.
    - A JavaScript string is the list of its UTF-16 code units ([jsstring]).
    - A [Uint8Array] chunk is a [list Byte.byte].
    - A JavaScript [number] holding a time stamp is a rational ([Q]); the
      integer [Date.now()] is a [Z] (milliseconds).
    - React state is one record, [AppState]; a handler is a function from the
      state to the new state and the list of requests and log lines it
      issued, in order ([Handler]).  A response of the server comes back as
      the argument of the continuation that the source runs after [await]. *)

From Stdlib Require Import List Bool Arith NArith ZArith QArith Lia.
From Stdlib Require Import Ascii String DecimalString.
From Stdlib Require Strings.Byte.
Import ListNotations.

Close Scope Q_scope.

Set Implicit Arguments.
Set Warnings "-register-all".

(** ** JavaScript strings *)

Module JsString.

Definition jsstring := list N.

(** A string literal of the source whose characters are all ASCII. *)
Definition lit (s : string) : jsstring :=
  map N_of_ascii (list_ascii_of_string s).

Fixpoint eqb (a b : jsstring) : bool :=
  match a, b with
  | [], [] => true
  | x :: a', y :: b' => N.eqb x y && eqb a' b'
  | _, _ => false
  end.

(** [String.prototype.startsWith]. *)
Fixpoint startsWith (p s : jsstring) : bool :=
  match p, s with
  | [], _ => true
  | x :: p', y :: s' => N.eqb x y && startsWith p' s'
  | _ :: _, [] => false
  end.

(** [String.prototype.slice(n)] for [0 <= n]. *)
Definition slice (n : nat) (s : jsstring) : jsstring := skipn n s.

(** The code units that [String.prototype.trim] strips: WhiteSpace and
    LineTerminator of ECMA-262. *)
Definition is_space (c : N) : bool :=
  match c with
  | 9 | 10 | 11 | 12 | 13 | 32 | 160 | 5760
  | 8232 | 8233 | 8239 | 8287 | 12288 | 65279 => true
  | _ => (8192 <=? c) && (c <=? 8202)
  end%N.

Fixpoint trimStart (s : jsstring) : jsstring :=
  match s with
  | c :: s' => if is_space c then trimStart s' else s
  | [] => []
  end.

Definition trimEnd (s : jsstring) : jsstring := rev (trimStart (rev s)).

Definition trim (s : jsstring) : jsstring := trimEnd (trimStart s).

(** Decimal rendering of a non-negative integer inside a template literal. *)
Definition of_Z (z : Z) : jsstring :=
  lit (NilZero.string_of_int (Z.to_int z)).

End JsString.
Import JsString.

(** ** The platform's [TextDecoder] (UTF-8, [stream: true])

    The decoder of the WHATWG Encoding standard, one byte at a time.  The
    state is what the standard keeps between calls of [decode] with
    [stream: true]: the code point under construction, the number of
    continuation bytes seen and needed, the bounds of the next
    continuation byte, and the flag that the byte order mark was looked
    for. *)

Module TextDecoder.

Record t := {
  code_point : N;
  bytes_seen : N;
  bytes_needed : N;
  lower : N;
  upper : N;
  bom_seen : bool
}.

Definition init : t :=
  {| code_point := 0; bytes_seen := 0; bytes_needed := 0;
     lower := 128; upper := 191; bom_seen := false |}.

Definition reset (d : t) : t :=
  {| code_point := 0; bytes_seen := 0; bytes_needed := 0;
     lower := 128; upper := 191; bom_seen := bom_seen d |}.

Definition replacement : N := 65533.

(** The handler of the standard when no continuation byte is awaited. *)
Definition lead (d : t) (b : N) : t * list N :=
  if (b <=? 127)%N then (d, [b])
  else if ((194 <=? b) && (b <=? 223))%N then
    ({| code_point := N.land b 31; bytes_seen := 0; bytes_needed := 1;
        lower := 128; upper := 191; bom_seen := bom_seen d |}, [])
  else if ((224 <=? b) && (b <=? 239))%N then
    ({| code_point := N.land b 15; bytes_seen := 0; bytes_needed := 2;
        lower := if (b =? 224)%N then 160 else 128;
        upper := if (b =? 237)%N then 159 else 191;
        bom_seen := bom_seen d |}, [])
  else if ((240 <=? b) && (b <=? 244))%N then
    ({| code_point := N.land b 7; bytes_seen := 0; bytes_needed := 3;
        lower := if (b =? 240)%N then 144 else 128;
        upper := if (b =? 244)%N then 143 else 191;
        bom_seen := bom_seen d |}, [])
  else (d, [replacement]).

(** One byte; the result is the code points it completes.  A byte that is
    no continuation of the pending sequence yields the replacement
    character and is handled again from the initial state. *)
Definition handle (d : t) (b : N) : t * list N :=
  if (bytes_needed d =? 0)%N then lead d b
  else if negb ((lower d <=? b) && (b <=? upper d))%N then
    let (d', out) := lead (reset d) b in (d', replacement :: out)
  else
    let cp := N.lor (N.shiftl (code_point d) 6) (N.land b 63) in
    if (bytes_seen d + 1 =? bytes_needed d)%N then (reset d, [cp])
    else ({| code_point := cp; bytes_seen := bytes_seen d + 1;
             bytes_needed := bytes_needed d;
             lower := 128; upper := 191; bom_seen := bom_seen d |}, []).

(** A code point as UTF-16 code units. *)
Definition utf16 (cp : N) : jsstring :=
  if (cp <? 65536)%N then [cp]
  else let c := (cp - 65536)%N in
       [(55296 + N.shiftr c 10)%N; (56320 + N.land c 1023)%N].

(** The byte order mark is dropped when it is the first code point. *)
Fixpoint serialize (seen : bool) (cps : list N) : bool * jsstring :=
  match cps with
  | [] => (seen, [])
  | cp :: rest =>
      let (seen', out) := serialize true rest in
      if negb seen && (cp =? 65279)%N then (seen', out)
      else (seen', utf16 cp ++ out)
  end.

Definition set_bom (d : t) (b : bool) : t :=
  {| code_point := code_point d; bytes_seen := bytes_seen d;
     bytes_needed := bytes_needed d; lower := lower d; upper := upper d;
     bom_seen := b |}.

Definition step (d : t) (b : Byte.byte) : t * jsstring :=
  let (d1, cps) := handle d (Byte.to_N b) in
  let (seen, out) := serialize (bom_seen d1) cps in
  (set_bom d1 seen, out).

(** [decoder.decode(value, { stream: true })]. *)
Fixpoint decode (d : t) (value : list Byte.byte) : t * jsstring :=
  match value with
  | [] => (d, [])
  | b :: rest =>
      let (d1, out1) := step d b in
      let (d2, out2) := decode d1 rest in
      (d2, out1 ++ out2)
  end.

End TextDecoder.

(** ** The reader loop of [sendChatMessage]: frames *)

Module FrameDecoder.

Definition newline : N := 10.

Definition is_nl (c : N) : bool := (c =? newline)%N.

(** Put a code unit in front of the first piece. *)
Definition push_front (c : N) (pieces : list jsstring) : list jsstring :=
  match pieces with
  | [] => [[c]]
  | p :: ps => (c :: p) :: ps
  end.

(** [buffer.split('\n\n')]: the pieces between the occurrences of the
    separator, found from the left without overlap; never empty. *)
Fixpoint split_nn (s : jsstring) : list jsstring :=
  match s with
  | [] => [[]]
  | c :: rest =>
      match rest with
      | d :: rest' =>
          if is_nl c && is_nl d then [] :: split_nn rest'
          else push_front c (split_nn rest)
      | [] => push_front c (split_nn rest)
      end
  end.

(** [lines.pop() || '']: the last piece, which stays in the buffer. *)
Definition pop (lines : list jsstring) : list jsstring * jsstring :=
  (removelast lines, last lines []).

Record t := {
  decoder : TextDecoder.t;
  buffer : jsstring
}.

(** [const decoder = new TextDecoder(); let buffer = '';] *)
Definition init : t := {| decoder := TextDecoder.init; buffer := [] |}.

(** One turn of the loop for a chunk that [reader.read()] delivered: the
    new state and the complete frames ([lines] after the [pop]). *)
Definition feed (st : t) (value : list Byte.byte) : t * list jsstring :=
  let (d, text) := TextDecoder.decode (decoder st) value in
  let (lines, rest) := pop (split_nn (buffer st ++ text)) in
  ({| decoder := d; buffer := rest |}, lines).

(** The loop over the chunks of a body, until [done]. *)
Fixpoint feed_all (st : t) (chunks : list (list Byte.byte))
  : t * list jsstring :=
  match chunks with
  | [] => (st, [])
  | value :: more =>
      let (st1, lines1) := feed st value in
      let (st2, lines2) := feed_all st1 more in
      (st2, lines1 ++ lines2)
  end.

(** The frames of a body delivered as [chunks]. *)
Definition frames (chunks : list (list Byte.byte)) : list jsstring :=
  snd (feed_all init chunks).

(** The text of a body: every frame followed by the separator, then what
    is left in the buffer. *)
Fixpoint unsplit (lines : list jsstring) (rest : jsstring) : jsstring :=
  match lines with
  | [] => rest
  | l :: ls => l ++ newline :: newline :: unsplit ls rest
  end.

(** A frame contains no separator that [split] would have found: it is a
    single piece. *)
Definition whole (l : jsstring) : Prop := split_nn l = [l].

End FrameDecoder.

(** ** Values of [JSON.parse] *)

Module Json.

Inductive JsonValue :=
| JNull
| JBool (b : bool)
| JNumber (q : Q)
| JString (s : jsstring)
| JArray (items : list JsonValue)
| JObject (fields : list (jsstring * JsonValue)).

(** A value read from a property: [None] is [undefined]. *)
Definition JsAny := option JsonValue.

Fixpoint lookup (k : jsstring) (fields : list (jsstring * JsonValue)) : JsAny :=
  match fields with
  | [] => None
  | (k', v) :: more => if JsString.eqb k k' then Some v else lookup k more
  end.

(** [data.k] for [data] other than [null]: an own property of an object;
    [undefined] on arrays and primitives, for the keys read by the source
    ([type], [message], [detail]). *)
Definition prop (k : jsstring) (data : JsonValue) : JsAny :=
  match data with
  | JObject fields => lookup k fields
  | _ => None
  end.

(** [v === 'literal']. *)
Definition is_string (s : jsstring) (v : JsAny) : bool :=
  match v with
  | Some (JString s') => JsString.eqb s' s
  | _ => false
  end.

(** Truthiness, as [||] tests it. *)
Definition truthy (v : JsAny) : bool :=
  match v with
  | None | Some JNull => false
  | Some (JBool b) => b
  | Some (JNumber q) => negb (Qeq_bool q 0)
  | Some (JString s) => match s with [] => false | _ => true end
  | Some (JArray _) | Some (JObject _) => true
  end.

(** What a variable declared for text holds at run time: a value as it
    came out of [JSON.parse], a string among them, or the value that [+]
    gives for operands that are not two strings. *)
Inductive Value :=
| Raw (v : JsAny)
| Sum (a : Value) (b : JsAny).

(** A string. *)
Definition text (s : jsstring) : Value := Raw (Some (JString s)).

(** [a + b]: the concatenation of two strings; for other operands the
    sum that JavaScript makes of them, kept as it is written. *)
Definition plus (a : Value) (b : JsAny) : Value :=
  match a, b with
  | Raw (Some (JString s)), Some (JString t) => text (s ++ t)
  | _, _ => Sum a b
  end.

End Json.
Import Json.

(** ** [api.ts]: the chat request and its event stream *)

Module Api.

(** [interface TraceEvent] is a compile-time view: a trace event is the
    parsed object itself ([data as TraceEvent]). *)
Definition TraceEvent := JsonValue.

(** [interface ChatSSECallbacks], over the state the callbacks act on. *)
Record ChatSSECallbacks (S : Type) := {
  onTrace : TraceEvent -> S -> S;
  onToken : JsAny -> S -> S;
  onFullResponse : JsAny -> S -> S;
  onDone : S -> S;
  onError : jsstring -> S -> S
}.

(** What a frame is classified as: the branch of the [if] chain on
    [data.type] and the argument it passes. *)
Inductive Event :=
| EvDone
| EvError (message : JsAny)
| EvFullResponse (message : JsAny)
| EvToken (message : JsAny)
| EvTrace (data : TraceEvent).

(** What [fetch] and the body reader deliver. *)
Inductive Ending := EndOfStream | ReadError.

Inductive Response :=
| Rejected
| NotOk (body : option JsonValue) (statusText : jsstring)
| NoBody
| Body (chunks : list (list Byte.byte)) (ending : Ending).

(** How the promise of [sendChatMessage] settles, and in which state. *)
Inductive Outcome (S : Type) :=
| Resolved (st : S)
| Threw (st : S).

Arguments Resolved {S} st.
Arguments Threw {S} st.

Definition final {S : Type} (o : Outcome S) : S :=
  match o with Resolved st | Threw st => st end.

Section WithPlatform.

(** [JSON.parse]: [None] when it throws. *)
Variable JSON_parse : jsstring -> option JsonValue.

(** The string a payload turns into where the callbacks, declared on
    [string], receive a value of another type. *)
Variable ToString : JsAny -> jsstring.

Definition as_string (v : JsAny) : jsstring :=
  match v with
  | Some (JString s) => s
  | _ => ToString v
  end.

(** The [if] chain on [data.type], for [data] other than [null]. *)
Definition dispatch (data : JsonValue) : Event :=
  let type := prop (lit "type") data in
  if is_string (lit "done") type then EvDone
  else if is_string (lit "error") type then EvError (prop (lit "message") data)
  else if is_string (lit "full_response") type
       then EvFullResponse (prop (lit "message") data)
  else if is_string (lit "stream_token") type
       then EvToken (prop (lit "message") data)
  else EvTrace data.

(** The body of the [for] loop up to the callback: [None] when the frame
    is skipped, by [continue] or by the [catch].  Reading [type] of [null]
    throws inside the [try] like a failed parse. *)
Definition classify (line : jsstring) : option Event :=
  let trimmed := trim line in
  if negb (startsWith (lit "data: ") trimmed) then None
  else match JSON_parse (slice 6 trimmed) with
       | None => None
       | Some JNull => None
       | Some data => Some (dispatch data)
       end.

Variable S : Type.
Variable callbacks : ChatSSECallbacks S.

Definition deliver (ev : Event) (st : S) : S :=
  match ev with
  | EvDone => onDone callbacks st
  | EvError m => onError callbacks (as_string m) st
  | EvFullResponse m => onFullResponse callbacks m st
  | EvToken m => onToken callbacks m st
  | EvTrace data => onTrace callbacks data st
  end.

Definition process_line (line : jsstring) (st : S) : S :=
  match classify line with
  | None => st
  | Some ev => deliver ev st
  end.

(** [for (const line of lines) ...]. *)
Definition process_lines (lines : list jsstring) (st : S) : S :=
  fold_left (fun st line => process_line line st) lines st.

(** The [while] loop over the chunks that [reader.read()] delivers. *)
Fixpoint read_loop (chunks : list (list Byte.byte)) (fd : FrameDecoder.t)
  (st : S) : FrameDecoder.t * S :=
  match chunks with
  | [] => (fd, st)
  | value :: more =>
      let (fd', lines) := FrameDecoder.feed fd value in
      read_loop more fd' (process_lines lines st)
  end.

(** [err.detail || res.statusText], for the body of a response that is
    not ok; [None] when reading [detail] throws. *)
Definition error_detail (body : option JsonValue) (statusText : jsstring)
  : option jsstring :=
  match body with
  | None => Some statusText
  | Some JNull => None
  | Some err =>
      let detail := prop (lit "detail") err in
      Some (if truthy detail then as_string detail else statusText)
  end.

Definition sendChatMessage (res : Response) (st : S) : Outcome S :=
  match res with
  | Rejected => Threw st
  | NotOk body statusText =>
      match error_detail body statusText with
      | Some error => Resolved (onError callbacks error st)
      | None => Threw st
      end
  | NoBody => Resolved (onError callbacks (lit "No response body") st)
  | Body chunks ending =>
      let st' := snd (read_loop chunks FrameDecoder.init st) in
      match ending with
      | EndOfStream => Resolved st'
      | ReadError => Threw st'
      end
  end.

End WithPlatform.

End Api.
Import Api.

(** ** [types.ts] *)

Module Types.

Record Conversation := {
  id : jsstring;
  title : jsstring;
  created_at : Q;
  updated_at : Q
}.

Inductive Role := user | assistant | system.

Record Message := {
  m_id : jsstring;
  conversation_id : jsstring;
  role : Role;
  content : jsstring;
  sources : list jsstring;
  agent_trace : list TraceEvent;
  timestamp : Q
}.

End Types.
Import Types.

(** ** The [App] component *)

Module App.

(** The state of the component: the [useState] cells the handlers below
    touch, and [activeConvRef.current]. *)
Record AppState := {
  conversations : list Conversation;
  activeConvId : option jsstring;
  messages : list Message;
  isLoading : bool;
  streamingContent : Value;
  liveTrace : list TraceEvent;
  activeConvRef : option jsstring
}.

(** [useState] initial values. *)
Definition initial : AppState :=
  {| conversations := []; activeConvId := None; messages := [];
     isLoading := false; streamingContent := text []; liveTrace := [];
     activeConvRef := None |}.

(** What a handler sends out: requests to the backend, whose answers come
    back later, and lines on the console. *)
Inductive Effect :=
| PostChat (conversation_id message : jsstring)
| GetMessages (conversationId : jsstring)
| ListConversations
| CreateConversation (title : jsstring)
| RenameConversation (id title : jsstring)
| DeleteConversation (id : jsstring)
| GetHealth
| ConsoleError (label : jsstring).

Definition Handler := AppState -> AppState * list Effect.

Definition upd (f : AppState -> AppState) : Handler := fun st => (f st, []).

Definition emit (e : Effect) : Handler := fun st => (st, [e]).

Definition skip : Handler := fun st => (st, []).

Definition seq (h1 h2 : Handler) : Handler :=
  fun st =>
    let (st1, out1) := h1 st in
    let (st2, out2) := h2 st1 in
    (st2, out1 ++ out2).

Declare Scope handler_scope.
Delimit Scope handler_scope with handler.
Bind Scope handler_scope with Handler.
Notation "h1 ;; h2" := (seq h1 h2)
  (at level 61, right associativity) : handler_scope.
Local Open Scope handler_scope.

(** The setters of [useState], with the updater form [set(prev => ...)]. *)
Definition setConversations (f : list Conversation -> list Conversation) : Handler :=
  upd (fun st =>
    {| conversations := f (conversations st); activeConvId := activeConvId st;
       messages := messages st; isLoading := isLoading st;
       streamingContent := streamingContent st; liveTrace := liveTrace st;
       activeConvRef := activeConvRef st |}).

Definition setActiveConvId (v : option jsstring) : Handler :=
  upd (fun st =>
    {| conversations := conversations st; activeConvId := v;
       messages := messages st; isLoading := isLoading st;
       streamingContent := streamingContent st; liveTrace := liveTrace st;
       activeConvRef := activeConvRef st |}).

Definition setMessages (f : list Message -> list Message) : Handler :=
  upd (fun st =>
    {| conversations := conversations st; activeConvId := activeConvId st;
       messages := f (messages st); isLoading := isLoading st;
       streamingContent := streamingContent st; liveTrace := liveTrace st;
       activeConvRef := activeConvRef st |}).

Definition setIsLoading (v : bool) : Handler :=
  upd (fun st =>
    {| conversations := conversations st; activeConvId := activeConvId st;
       messages := messages st; isLoading := v;
       streamingContent := streamingContent st; liveTrace := liveTrace st;
       activeConvRef := activeConvRef st |}).

Definition setStreamingContent (v : Value) : Handler :=
  upd (fun st =>
    {| conversations := conversations st; activeConvId := activeConvId st;
       messages := messages st; isLoading := isLoading st;
       streamingContent := v; liveTrace := liveTrace st;
       activeConvRef := activeConvRef st |}).

Definition setLiveTrace (f : list TraceEvent -> list TraceEvent) : Handler :=
  upd (fun st =>
    {| conversations := conversations st; activeConvId := activeConvId st;
       messages := messages st; isLoading := isLoading st;
       streamingContent := streamingContent st; liveTrace := f (liveTrace st);
       activeConvRef := activeConvRef st |}).

(** [activeConvRef.current = v]. *)
Definition setActiveConvRef (v : option jsstring) : Handler :=
  upd (fun st =>
    {| conversations := conversations st; activeConvId := activeConvId st;
       messages := messages st; isLoading := isLoading st;
       streamingContent := streamingContent st; liveTrace := liveTrace st;
       activeConvRef := v |}).


(** The two readings of [Date.now()] that build a message: for its [id]
    and for its [timestamp]. *)
Record Clock := { now_id : Z; now_ts : Z }.

(** [Date.now() / 1000]. *)
Definition seconds (ms : Z) : Q := Qmake ms 1000.

(** *** Loading *)

Definition loadMessages (convId : jsstring) : Handler :=
  emit (GetMessages convId).

(** After [await api.getMessages(convId)]: [None] when it threw. *)
Definition loadMessages_settled (res : option (list Message)) : Handler :=
  match res with
  | Some msgs => setMessages (fun _ => msgs)
  | None => emit (ConsoleError (lit "Failed to load messages:"))
  end.

Definition loadConversations : Handler := emit ListConversations.

Definition loadConversations_settled (res : option (list Conversation)) : Handler :=
  match res with
  | Some convs => setConversations (fun _ => convs)
  | None => emit (ConsoleError (lit "Failed to load conversations:"))
  end.

Definition loadVectorStats : Handler := emit GetHealth.

(** The effect run on mount. *)
Definition mount : Handler := emit ListConversations ;; loadVectorStats.

(** After [await api.listConversations()] in the effect run on mount. *)
Definition mount_listed (res : option (list Conversation)) : Handler :=
  match res with
  | Some convs =>
      setConversations (fun _ => convs) ;;
      match convs with
      | mostRecent :: _ =>
          setActiveConvId (Some (id mostRecent)) ;;
          setActiveConvRef (Some (id mostRecent)) ;;
          emit (GetMessages (id mostRecent))
      | [] => skip
      end
  | None => emit (ConsoleError (lit "Failed to load conversations:"))
  end.

(** After [await api.getMessages(mostRecent.id)] in the same effect. *)
Definition mount_messages (res : option (list Message)) : Handler :=
  match res with
  | Some msgs => setMessages (fun _ => msgs)
  | None => emit (ConsoleError (lit "Failed to load conversations:"))
  end.

(** *** The conversation list *)


(** [newConversation], [renameConversation] and [deleteConversation] up
    to their [await]. *)
Definition newConversation : Handler :=
  emit (CreateConversation (lit "New Conversation")).

Definition renameConversation (id0 title0 : jsstring) : Handler :=
  emit (RenameConversation id0 title0).

Definition deleteConversation (id0 : jsstring) : Handler :=
  emit (DeleteConversation id0).

(** After [await api.createConversation()]; the handler returns the new
    id, or [null]. *)
Definition newConversation_settled (res : option Conversation)
  : AppState -> AppState * list Effect * option jsstring :=
  fun st =>
    match res with
    | Some conv =>
        ((setConversations (fun prev => conv :: prev) ;;
          setActiveConvId (Some (id conv)) ;;
          setActiveConvRef (Some (id conv)) ;;
          setMessages (fun _ => []) ;;
          setStreamingContent (text []) ;;
          setLiveTrace (fun _ => [])) st,
         Some (id conv))
    | None =>
        (emit (ConsoleError (lit "Failed to create conversation:")) st, None)
    end.

(** After [await api.renameConversation(id, title)]; [now] is the clock
    read by the updater. *)
Definition renameConversation_settled (now : Z) (id0 title0 : jsstring)
  (ok : bool) : Handler :=
  if ok then
    setConversations (fun prev =>
      map (fun c =>
             if JsString.eqb (id c) id0
             then {| id := id c; title := title0;
                     created_at := created_at c; updated_at := seconds now |}
             else c) prev)
  else emit (ConsoleError (lit "Failed to rename conversation:")).

(** [prev.filter((c) => c.id !== id)]. *)
Definition without (id0 : jsstring) (prev : list Conversation) : list Conversation :=
  filter (fun c => negb (JsString.eqb (id c) id0)) prev.

Definition ref_is (id0 : jsstring) (r : option jsstring) : bool :=
  match r with
  | Some a => JsString.eqb a id0
  | None => false
  end.

(** After [await api.deleteConversation(id)]. *)
Definition deleteConversation_settled (id0 : jsstring) (ok : bool) : Handler :=
  if ok then
    fun st =>
      let remaining := without id0 (conversations st) in
      ((if ref_is id0 (activeConvRef st) then
          match remaining with
          | first :: _ =>
              setActiveConvId (Some (id first)) ;;
              setActiveConvRef (Some (id first)) ;;
              loadMessages (id first)
          | [] =>
              setActiveConvId None ;;
              setActiveConvRef None ;;
              setMessages (fun _ => [])
          end
        else skip) ;;
       setConversations (fun _ => remaining)) st
  else emit (ConsoleError (lit "Failed to delete conversation:")).

(** *** Sending a message *)

(** What one run of [sendMessage] keeps in its closure: the conversation
    id it was started for and [let fullResponse]. *)
Record Session := {
  convId : jsstring;
  fullResponse : Value
}.

(** [explicitConvId ?? activeConvRef.current]. *)
Definition target (explicitConvId : option jsstring) (st : AppState)
  : option jsstring :=
  match explicitConvId with
  | Some c => Some c
  | None => activeConvRef st
  end.

(** [!convId]: [null] and the empty string. *)
Definition no_id (c : option jsstring) : bool :=
  match c with
  | None | Some [] => true
  | Some (_ :: _) => false
  end.

Definition userMsg (clk : Clock) (convId0 message : jsstring) : Message :=
  {| m_id := lit "temp-" ++ of_Z (now_id clk);
     conversation_id := convId0;
     role := user;
     content := message;
     sources := [];
     agent_trace := [];
     timestamp := seconds (now_ts clk) |}.

(** The heavy cross mark that opens the text of an error message. *)
Definition cross_mark : N := 10060.

Definition errMsg (clk : Clock) (convId0 error : jsstring) : Message :=
  {| m_id := lit "err-" ++ of_Z (now_id clk);
     conversation_id := convId0;
     role := assistant;
     content := cross_mark :: lit " Error: " ++ error;
     sources := [];
     agent_trace := [];
     timestamp := seconds (now_ts clk) |}.

(** [sendMessage] up to the call of [api.sendChatMessage], whose request
    goes out before the first [await]: the new state, what was sent, and
    the session started, [None] when the guard returns.  The function is
    made anew at every render and tests the [isLoading] that its render
    saw, [seen]; [activeConvRef.current] and the setters work on the
    state at the time of the call, [st]. *)
Definition sendMessage_seeing (seen : bool) (clk : Clock) (message : jsstring)
  (explicitConvId : option jsstring) (st : AppState)
  : AppState * list Effect * option Session :=
  let c := target explicitConvId st in
  if no_id c || seen then (st, [], None)
  else
    match c with
    | None => (st, [], None)
    | Some convId0 =>
        ((setMessages (fun prev => prev ++ [userMsg clk convId0 message]) ;;
          setIsLoading true ;;
          setStreamingContent (text []) ;;
          setLiveTrace (fun _ => []) ;;
          emit (PostChat convId0 message)) st,
         Some {| convId := convId0; fullResponse := text [] |})
    end.

(** The [sendMessage] of the render that shows [st], which is the one
    that the input bar calls. *)
Definition sendMessage (clk : Clock) (message : jsstring)
  (explicitConvId : option jsstring) (st : AppState)
  : AppState * list Effect * option Session :=
  sendMessage_seeing (isLoading st) clk message explicitConvId st.

(** A session at work: its closure, the state of the component, and what
    it has sent out so far. *)
Record Run := {
  session : Session;
  app : AppState;
  out : list Effect
}.

Definition run (h : Handler) (r : Run) : Run :=
  let (st, o) := h (app r) in
  {| session := session r; app := st; out := out r ++ o |}.

(** [fullResponse = v]. *)
Definition setFullResponse (v : Value) (r : Run) : Run :=
  {| session := {| convId := convId (session r); fullResponse := v |};
     app := app r; out := out r |}.

(** The callbacks [sendMessage] hands to [api.sendChatMessage]; [clk] is
    the clock while they run. *)
Definition callbacks (clk : Clock) : ChatSSECallbacks Run :=
  {| onTrace := fun event =>
       run (setLiveTrace (fun prev => prev ++ [event]));
     onToken := fun token r =>
       let r' := setFullResponse (plus (fullResponse (session r)) token) r in
       run (setStreamingContent (fullResponse (session r'))) r';
     onFullResponse := fun msg r =>
       run (setStreamingContent (Raw msg)) (setFullResponse (Raw msg) r);
     onDone := fun r =>
       run (loadMessages (convId (session r)) ;;
            setStreamingContent (text []) ;;
            setLiveTrace (fun _ => []) ;;
            setIsLoading false ;;
            loadConversations ;;
            loadVectorStats) r;
     onError := fun error r =>
       run (emit (ConsoleError (lit "Chat error:")) ;;
            setMessages (fun prev =>
              prev ++ [errMsg clk (convId (session r)) error]) ;;
            setIsLoading false ;;
            setStreamingContent (text []) ;;
            setLiveTrace (fun _ => [])) r |}.

(** The end of [sendMessage]: the [catch] around the awaited call. *)
Definition sendMessage_settled (o : Outcome Run) : Run :=
  match o with
  | Resolved r => r
  | Threw r =>
      run (emit (ConsoleError (lit "Send failed:")) ;; setIsLoading false) r
  end.

(** One whole exchange with nothing else in between: [sendMessage] from
    the guard to the end, for the response [res]. *)
Definition exchange (JSON_parse : jsstring -> option JsonValue)
  (ToString : JsAny -> jsstring) (clk clk' : Clock) (message : jsstring)
  (explicitConvId : option jsstring) (res : Response) (st : AppState)
  : AppState * list Effect :=
  match sendMessage clk message explicitConvId st with
  | (st', o, Some s) =>
      let r := sendMessage_settled
                 (sendChatMessage JSON_parse ToString (callbacks clk') res
                    {| session := s; app := st'; out := o |}) in
      (app r, out r)
  | (st', o, None) => (st', o)
  end.



(** [sorted by updated_at DESC]. *)
Fixpoint sorted_desc (convs : list Conversation) : bool :=
  match convs with
  | [] => true
  | c :: rest =>
      match rest with
      | [] => true
      | d :: _ => Qle_bool (updated_at d) (updated_at c) && sorted_desc rest
      end
  end.

(** The events of a stream that is still going on. *)
Definition nonterminal (ev : Event) : bool :=
  match ev with
  | EvDone | EvError _ => false
  | EvFullResponse _ | EvToken _ | EvTrace _ => true
  end.

(** The events of some frames handed to the callbacks one after the
    other, in the order of arrival. *)
Definition apply_events (ToString : JsAny -> jsstring) (clk : Clock)
  (evs : list Event) (r : Run) : Run :=
  fold_left (fun r ev => deliver ToString (callbacks clk) ev r) evs r.

(** The events of some [stream_token] frames with the given fragments. *)
Definition tokens (toks : list jsstring) : list Event :=
  map (fun t => EvToken (Some (JString t))) toks.

Definition is_assistant (m : Message) : bool :=
  match role m with
  | assistant => true
  | user | system => false
  end.

(** Whether [sendMessage] went past its guard. *)
Definition accepted (res : AppState * list Effect * option Session) : bool :=
  match res with
  | (_, _, Some _) => true
  | (_, _, None) => false
  end.

(** [c] is at least as recent as [d]. *)
Definition newer (c d : Conversation) : Prop :=
  (updated_at d <= updated_at c)%Q.

End App.
Import App.

(** ** The accumulators as the specification words them *)

Module Spec.

(** An event whose payload is of the type that [ChatSSECallbacks]
    declares: a token and a full response carry a string. *)
Definition typed (ev : Event) : bool :=
  match ev with
  | EvToken (Some (JString _)) | EvFullResponse (Some (JString _)) => true
  | EvToken _ | EvFullResponse _ => false
  | EvDone | EvError _ | EvTrace _ => true
  end.

(** The text of a payload that is a string. *)
Definition fragment (m : JsAny) : jsstring :=
  match m with
  | Some (JString s) => s
  | _ => []
  end.

(** [accumulatedTokens], for events that are typed: a [stream_token]
    appends its fragment, a [full_response] replaces the text, any other
    event leaves it. *)
Fixpoint accumulatedTokens (acc : jsstring) (evs : list Event) : jsstring :=
  match evs with
  | [] => acc
  | EvToken m :: more => accumulatedTokens (acc ++ fragment m) more
  | EvFullResponse m :: more => accumulatedTokens (fragment m) more
  | _ :: more => accumulatedTokens acc more
  end.

(** The claim that an [error] event clears the accumulated tokens. *)
Definition error_clears_accumulator (ToString : JsAny -> jsstring)
  (clk : Clock) (error : JsAny) (r : Run) : Prop :=
  fullResponse (session (deliver ToString (callbacks clk) (EvError error) r))
  = text [].



End Spec.

(** ** Values for the examples *)

Module Sample.

Definition conv_a : Conversation :=
  {| id := lit "a"; title := lit "Quantum"; created_at := inject_Z 100;
     updated_at := inject_Z 200 |}.

Definition conv_b : Conversation :=
  {| id := lit "b"; title := lit "Proteins"; created_at := inject_Z 50;
     updated_at := inject_Z 100 |}.

(** Two conversations, the first selected, nothing going on. *)
Definition idle : AppState :=
  {| conversations := [conv_a; conv_b];
     activeConvId := Some (lit "a");
     messages := [];
     isLoading := false;
     streamingContent := text [];
     liveTrace := [];
     activeConvRef := Some (lit "a") |}.

Definition clk0 : Clock := {| now_id := 1700000000000; now_ts := 1700000000001 |}.

Definition clk1 : Clock := {| now_id := 1700000002000; now_ts := 1700000002000 |}.

(** A string literal of JSON text: the characters between quotation marks. *)
Definition quoted (s : string) : jsstring := 34%N :: lit s ++ [34%N].

Definition done_payload : jsstring :=
  lit "{" ++ quoted "type" ++ lit ":" ++ quoted "done" ++ lit "}".

Definition token_payload : jsstring :=
  lit "{" ++ quoted "type" ++ lit ":" ++ quoted "stream_token" ++ lit ","
  ++ quoted "message" ++ lit ":" ++ quoted "Hi" ++ lit "}".

(** A stand-in for [JSON.parse] that knows three payloads. *)
Definition parse (s : jsstring) : option JsonValue :=
  if JsString.eqb s done_payload
  then Some (JObject [(lit "type", JString (lit "done"))])
  else if JsString.eqb s token_payload
  then Some (JObject [(lit "type", JString (lit "stream_token"));
                      (lit "message", JString (lit "Hi"))])
  else if JsString.eqb s (lit "null") then Some JNull
  else None.

(** A stand-in for the coercion of a payload that is no string. *)
Definition to_text (v : JsAny) : jsstring :=
  match v with
  | None => lit "undefined"
  | Some JNull => lit "null"
  | Some (JBool true) => lit "true"
  | Some (JBool false) => lit "false"
  | Some (JString s) => s
  | Some _ => lit "[object Object]"
  end.

(** The bytes of a text whose characters are all ASCII. *)
Definition bytes (s : jsstring) : list Byte.byte :=
  map (fun c => match Byte.of_N c with Some b => b | None => Byte.x00 end) s.

(** A body as chunks of seven bytes. *)
Fixpoint cut (fuel : nat) (bs : list Byte.byte) : list (list Byte.byte) :=
  match fuel with
  | O => [bs]
  | Datatypes.S fuel' =>
      match bs with
      | [] => []
      | _ :: _ => firstn 7 bs :: cut fuel' (skipn 7 bs)
      end
  end.

(** A body of four frames, the second of which is corrupt. *)
Definition body_text : jsstring :=
  lit "data: " ++ token_payload ++ [10; 10]%N
  ++ lit "data: {oops" ++ [10; 10]%N
  ++ lit "data: " ++ token_payload ++ [10; 10]%N
  ++ lit "data: " ++ done_payload ++ [10; 10]%N.

Definition step_event (agent : string) : TraceEvent :=
  JObject [(lit "event_type", JString (lit "agent_start"));
           (lit "agent_name", JString (lit agent))].

(** The component while the answer to a question in conversation [a]
    streams in: one trace event and one token have arrived. *)
Definition streaming : Run :=
  apply_events to_text clk1
    [EvTrace (step_event "orchestrator"); EvToken (Some (JString (lit "Qu")))]
    (match sendMessage clk0 (lit "What is quantum computing?") None idle with
     | (st, o, Some s) => {| session := s; app := st; out := o |}
     | (st, o, None) =>
         {| session := {| convId := []; fullResponse := text [] |};
            app := st; out := o |}
     end).

End Sample.

From Stdlib Require DecimalZ.

(** ** The events of a body *)

Module Stream.

(** The text of a body. *)
Definition body_text (chunks : list (list Byte.byte)) : jsstring :=
  snd (TextDecoder.decode TextDecoder.init (List.concat chunks)).

(** The events that the loop hands to the callbacks for some frames, in
    order. *)
Definition classify_all (JSON_parse : jsstring -> option JsonValue)
  (lines : list jsstring) : list Event :=
  flat_map (fun line =>
              match classify JSON_parse line with
              | Some ev => [ev]
              | None => []
              end) lines.

(** A text whose code units are all ASCII, as bytes. *)
Definition ascii (s : jsstring) : Prop := Forall (fun c => (c < 128)%N) s.

Definition encode (s : jsstring) : list Byte.byte :=
  map (fun c => match Byte.of_N c with Some b => b | None => Byte.x00 end) s.

(** A frame as a server writes it: no blank line inside and no line feed
    at its end, so that the separator that follows is the first one. *)
Definition frame_ok (f : jsstring) : Prop :=
  FrameDecoder.whole f /\ last f 0%N <> FrameDecoder.newline.

(** The trace events among some events, in order. *)
Definition traces (evs : list Event) : list TraceEvent :=
  flat_map (fun ev => match ev with EvTrace data => [data] | _ => [] end) evs.

(** What the events of a stream leave in [fullResponse]: a token is
    added to it with [+], a full response is stored as it is. *)
Fixpoint streamed (acc : Value) (evs : list Event) : Value :=
  match evs with
  | [] => acc
  | EvToken m :: more => streamed (plus acc m) more
  | EvFullResponse m :: more => streamed (Raw m) more
  | _ :: more => streamed acc more
  end.

(** The events of the frames of a body. *)
Definition body_events (JSON_parse : jsstring -> option JsonValue)
  (chunks : list (list Byte.byte)) : list Event :=
  classify_all JSON_parse (FrameDecoder.frames chunks).

End Stream.

(** ** More values for the examples *)

Module Demo.
Import Sample.

Definition error_payload : jsstring :=
  lit "{" ++ quoted "type" ++ lit ":" ++ quoted "error" ++ lit ","
  ++ quoted "message" ++ lit ":" ++ quoted "model unavailable" ++ lit "}".

Definition trace_payload : jsstring :=
  lit "{" ++ quoted "event_type" ++ lit ":" ++ quoted "agent_start" ++ lit ","
  ++ quoted "agent_name" ++ lit ":" ++ quoted "orchestrator" ++ lit "}".

(** A stand-in for [JSON.parse] that knows two payloads more. *)
Definition parse (s : jsstring) : option JsonValue :=
  if JsString.eqb s error_payload
  then Some (JObject [(lit "type", JString (lit "error"));
                      (lit "message", JString (lit "model unavailable"))])
  else if JsString.eqb s trace_payload
  then Some (step_event "orchestrator")
  else Sample.parse s.

(** A frame on the wire. *)
Definition frame (payload : jsstring) : jsstring :=
  lit "data: " ++ payload ++ [10; 10]%N.

(** A body that ends without a last word. *)
Definition body_open : list (list Byte.byte) :=
  cut 100 (Stream.encode (frame trace_payload ++ frame token_payload
                          ++ frame token_payload)).

Definition body_done : list (list Byte.byte) :=
  cut 100 (Stream.encode (frame trace_payload ++ frame token_payload
                          ++ frame token_payload ++ frame done_payload)).


Definition question : jsstring := lit "What is quantum computing?".

(** A stand-in for [toLowerCase] that knows the letters of ASCII. *)
Definition lower (s : jsstring) : jsstring :=
  map (fun c => if ((65 <=? c) && (c <=? 90))%N then (c + 32)%N else c) s.

End Demo.

(** ** [App]: uploading a PDF, and acting with no conversation selected *)

Module Upload.

Local Open Scope handler_scope.

(** How [api.uploadPDF] settles: with the trace of the result, [None]
    when the result has none, or by throwing; [err] is the text that the
    template literal makes of what was thrown. *)
Inductive UploadOutcome :=
| Uploaded (trace : option (list TraceEvent))
| UploadThrew (err : jsstring).

(** The request of [api.uploadPDF]. *)
Inductive UploadRequest :=
| PostUpload (conversation_id file_name : jsstring).

(** The step shown while the upload is under way. *)
Definition upload_step (now : Z) (file_name : jsstring) : TraceEvent :=
  JObject [(lit "event_type", JString (lit "plan_step"));
           (lit "agent_name", JString (lit "orchestrator"));
           (lit "message",
            JString (lit "Uploading and processing: " ++ file_name));
           (lit "data", JObject []);
           (lit "timestamp", JNumber (seconds now))].

Definition uploadErrMsg (clk : Clock) (convId0 err : jsstring) : Message :=
  {| m_id := lit "err-" ++ of_Z (now_id clk);
     conversation_id := convId0;
     role := assistant;
     content := cross_mark :: lit " Upload failed: " ++ err;
     sources := [];
     agent_trace := [];
     timestamp := seconds (now_ts clk) |}.

(** [uploadPDF] up to the call of [api.uploadPDF]: the new state and the
    request, [None] when the guard returns. *)
Definition uploadPDF (now : Z) (file_name : jsstring)
  (explicitConvId : option jsstring) (st : AppState)
  : AppState * option UploadRequest :=
  let c := target explicitConvId st in
  if no_id c then (st, None)
  else
    match c with
    | None => (st, None)
    | Some convId0 =>
        (fst ((setIsLoading true ;;
               setLiveTrace (fun _ => [upload_step now file_name])) st),
         Some (PostUpload convId0 file_name))
    end.

(** The [finally] of [uploadPDF]. *)
Definition upload_finally : Handler :=
  setIsLoading false ;; setLiveTrace (fun _ => []).

(** After [await api.uploadPDF(convId, file)]: on a result, up to the
    [await] of [loadMessages]; on a throw, the [catch] and the
    [finally]. *)
Definition uploadPDF_settled (clk : Clock) (convId0 : jsstring)
  (res : UploadOutcome) : Handler :=
  match res with
  | Uploaded trace =>
      setLiveTrace (fun _ => match trace with Some t => t | None => [] end) ;;
      loadMessages convId0
  | UploadThrew err =>
      emit (ConsoleError (lit "Upload failed:")) ;;
      setMessages (fun prev => prev ++ [uploadErrMsg clk convId0 err]) ;;
      upload_finally
  end.

(** After [await loadMessages(convId)], which never throws: the rest of
    the [try] and the [finally]. *)
Definition uploadPDF_reloaded (res : option (list Message)) : Handler :=
  loadMessages_settled res ;; loadVectorStats ;; upload_finally.

(** One whole upload with nothing else in between; [reload] is the answer
    to the request for the messages. *)
Definition upload (now : Z) (clk : Clock) (file_name : jsstring)
  (explicitConvId : option jsstring) (res : UploadOutcome)
  (reload : option (list Message)) (st : AppState) : AppState * list Effect :=
  match uploadPDF now file_name explicitConvId st with
  | (st1, Some (PostUpload convId0 _)) =>
      match res with
      | Uploaded _ =>
          (uploadPDF_settled clk convId0 res ;; uploadPDF_reloaded reload) st1
      | UploadThrew _ => uploadPDF_settled clk convId0 res st1
      end
  | (st1, None) => (st1, [])
  end.

(** [handleSendNoConv] after [await newConversation()]: [res] is the
    conversation the backend made, [None] when the call threw, and [st]
    the state when the call settles.  The [sendMessage] it calls is the
    one of the render in which the message was sent, which tests the
    [isLoading] that this render saw, [seen]. *)
Definition handleSendNoConv_settled (seen : bool) (clk : Clock)
  (message : jsstring) (res : option Conversation) (st : AppState)
  : AppState * list Effect * option Session :=
  match newConversation_settled res st with
  | (st1, o1, newId) =>
      if no_id newId then (st1, o1, None)
      else
        match sendMessage_seeing seen clk message newId st1 with
        | (st2, o2, s) => (st2, o1 ++ o2, s)
        end
  end.

(** [handleUploadNoConv] after [await newConversation()]. *)
Definition handleUploadNoConv_settled (now : Z) (file_name : jsstring)
  (res : option Conversation) (st : AppState)
  : AppState * list Effect * option UploadRequest :=
  match newConversation_settled res st with
  | (st1, o1, newId) =>
      if no_id newId then (st1, o1, None)
      else
        match uploadPDF now file_name newId st1 with
        | (st2, req) => (st2, o1, req)
        end
  end.

End Upload.

(** ** Text without white space at its front *)

Module Trim.

Definition starts_clean (s : jsstring) : Prop :=
  match s with
  | c :: _ => is_space c = false
  | [] => True
  end.

End Trim.
Import Trim.

(** ** [InputBar] *)

Module InputBar.

(** What the component reads of a [File]. *)
Record File := {
  name : jsstring;
  size : N;
  type : jsstring
}.

(** The [useState] cells of the component. *)
Record t := {
  text : jsstring;
  pendingFile : option File
}.

(** The call of a prop that a handler makes. *)
Inductive Call :=
| onUpload (file : File)
| onSend (message : jsstring).

(** [!s]: the empty string. *)
Definition empty (s : jsstring) : bool :=
  match s with
  | [] => true
  | _ :: _ => false
  end.

Definition handleSend (st : t) : t * option Call :=
  match pendingFile st with
  | Some file => ({| text := text st; pendingFile := None |}, Some (onUpload file))
  | None =>
      let trimmed := trim (text st) in
      if empty trimmed then (st, None)
      else ({| text := []; pendingFile := None |}, Some (onSend trimmed))
  end.

(** [handleKeyDown], for the key and the state of the shift key. *)
Definition handleKeyDown (key : jsstring) (shiftKey : bool) (st : t)
  : t * option Call :=
  if JsString.eqb key (lit "Enter") && negb shiftKey then handleSend st
  else (st, None).

(** [handleTextChange], without the resizing of the text area. *)
Definition handleTextChange (value : jsstring) (st : t) : t :=
  {| text := value; pendingFile := pendingFile st |}.

(** [handleFileSelect], for [e.target.files?.[0]]. *)
Definition handleFileSelect (file : option File) (st : t) : t :=
  match file with
  | Some f =>
      if JsString.eqb (type f) (lit "application/pdf")
      then {| text := text st; pendingFile := Some f |}
      else st
  | None => st
  end.

End InputBar.

(** ** [Sidebar] *)

Module Sidebar.

Record t := {
  editingId : option jsstring;
  editTitle : jsstring
}.

Inductive Call :=
| onSelect (id : jsstring)
| onRename (id title : jsstring)
| onDelete (id : jsstring).

Definition startRename (conv : Conversation) : t :=
  {| editingId := Some (id conv); editTitle := title conv |}.

Definition idle : t := {| editingId := None; editTitle := [] |}.

Definition commitRename (st : t) : t * option Call :=
  (idle,
   match editingId st with
   | Some e =>
       if negb (InputBar.empty e) && negb (InputBar.empty (trim (editTitle st)))
       then Some (onRename e (trim (editTitle st)))
       else None
   | None => None
   end).

Definition cancelRename : t := idle.

(** The click on the row of a conversation. *)
Definition click (conv : Conversation) (st : t) : option Call :=
  match editingId st with
  | Some e => if JsString.eqb e (id conv) then None else Some (onSelect (id conv))
  | None => Some (onSelect (id conv))
  end.

End Sidebar.

(** ** [SearchModal] *)

Module SearchModal.

(** [String.prototype.includes]. *)
Fixpoint includes (s q : jsstring) : bool :=
  startsWith q s ||
  match s with
  | [] => false
  | _ :: s' => includes s' q
  end.

(** [String.prototype.indexOf]: [None] is [-1]. *)
Fixpoint indexOf (s q : jsstring) : option nat :=
  if startsWith q s then Some O
  else
    match s with
    | [] => None
    | _ :: s' => option_map Datatypes.S (indexOf s' q)
    end.

(** [!query.trim()]. *)
Definition blank (query : jsstring) : bool := InputBar.empty (trim query).

Section WithLowerCase.

(** [String.prototype.toLowerCase]. *)
Variable toLowerCase : jsstring -> jsstring.

(** The memo [filtered]. *)
Definition filtered (query : jsstring) (conversations : list Conversation)
  : list Conversation :=
  if blank query then conversations
  else
    let q := toLowerCase query in
    filter (fun c => includes (toLowerCase (title c)) q) conversations.

(** What [highlight] renders: the text as it is, or cut in three with
    the middle part marked. *)
Inductive Shown :=
| Plain (text : jsstring)
| Marked (before mark after : jsstring).

Definition highlight (query text : jsstring) : Shown :=
  if blank query then Plain text
  else
    let q := trim query in
    match indexOf (toLowerCase text) (toLowerCase q) with
    | None => Plain text
    | Some idx =>
        Marked (firstn idx text)
               (firstn (List.length q) (skipn idx text))
               (skipn (idx + List.length q) text)
    end.

End WithLowerCase.

(** [filtered[selectedIdx]]: [None] is [undefined]. *)
Definition at_index (l : list Conversation) (i : Z) : option Conversation :=
  if (i <? 0)%Z then None else nth_error l (Z.to_nat i).

(** What a key does: the new [selectedIdx]; on Enter the id handed to
    [onSelect] before [onClose], or the throw of reading [id] of
    [undefined]. *)
Inductive KeyResult :=
| Index (selectedIdx : Z)
| Select (id : jsstring)
| Throws.

Definition handleKeyDown (key : jsstring) (filtered : list Conversation)
  (selectedIdx : Z) : KeyResult :=
  let len := Z.of_nat (List.length filtered) in
  if JsString.eqb key (lit "ArrowDown")
  then Index (Z.min (selectedIdx + 1) (len - 1))
  else if JsString.eqb key (lit "ArrowUp")
  then Index (Z.max (selectedIdx - 1) 0)
  else if JsString.eqb key (lit "Enter") && (0 <? len)%Z
  then match at_index filtered selectedIdx with
       | Some conv => Select (id conv)
       | None => Throws
       end
  else Index selectedIdx.

End SearchModal.

(** ** [AgentTrace], [ChatArea] and [MessageBubble]: what is shown *)

Module View.

Definition is_null (e : TraceEvent) : bool :=
  match e with
  | JNull => true
  | _ => false
  end.

(** An event that is no trace event carrying [null]. *)
Definition no_null_trace (ev : Event) : Prop :=
  match ev with
  | EvTrace data => is_null data = false
  | _ => True
  end.

(** The test of the filter, for an event other than [null]. *)
Definition shown_step (e : TraceEvent) : bool :=
  negb (is_string (lit "stream_token") (prop (lit "event_type") e))
  && negb (is_string (lit "stream_end") (prop (lit "event_type") e)).

(** [traceEvents] of [AgentTrace]: [None] when reading [event_type]
    throws, which it does on [null]. *)
Definition traceEvents (events : list TraceEvent) : option (list TraceEvent) :=
  if existsb is_null events then None else Some (filter shown_step events).





Definition nonempty {A} (l : list A) : bool :=
  match l with
  | [] => false
  | _ :: _ => true
  end.



(** The badge of a source in [MessageBubble]. *)
Definition ellipsis : N := 8230.

Definition badge (source : jsstring) : jsstring :=
  if (40 <? List.length source)%nat then firstn 40 source ++ [ellipsis]
  else source.

Definition isUser (m : Message) : bool :=
  match role m with
  | user => true
  | assistant | system => false
  end.

(** The badges under a message. *)
Definition badges (m : Message) : list jsstring :=
  if negb (isUser m) && nonempty (sources m)
  then map badge (firstn 5 (sources m))
  else [].

(** Whether the trace of a message is handed to [AgentTrace]. *)
Definition shows_trace (m : Message) : bool :=
  negb (isUser m) && nonempty (agent_trace m).

End View.

(** * Properties *)

(** ** Strings *)

Module JsStringFacts.

Lemma eqb_eq (a b : jsstring) : JsString.eqb a b = true <-> a = b.
Proof.
  revert b; induction a as [|x a IH]; intros [|y b]; simpl; try easy.
  rewrite andb_true_iff, N.eqb_eq, IH. split.
  - intros [-> ->]; reflexivity.
  - intros E; injection E; auto.
Qed.

Lemma eqb_refl (a : jsstring) : JsString.eqb a a = true.
Proof. apply eqb_eq; reflexivity. Qed.

Lemma eqb_neq (a b : jsstring) : JsString.eqb a b = false <-> a <> b.
Proof.
  split.
  - intros E H. apply eqb_eq in H. congruence.
  - intros H. destruct (JsString.eqb a b) eqn:E; [|reflexivity].
    apply eqb_eq in E; contradiction.
Qed.

Example trim_strips_both_ends :
  trim (32 :: 9 :: lit "data: x" ++ [32; 13; 10; 160; 8203])%N
  = (lit "data: x" ++ [32; 13; 10; 160; 8203])%N
  /\ trim (32 :: 9 :: lit "data: x" ++ [32; 13; 10; 160; 65279])%N
     = lit "data: x".
Proof. split; reflexivity. Qed.

Example of_Z_decimal : of_Z 1700000000000 = lit "1700000000000".
Proof. reflexivity. Qed.

Example startsWith_prefix :
  startsWith (lit "data: ") (lit "data: {}") = true
  /\ startsWith (lit "data: ") (lit "data:{}") = false
  /\ slice 6 (lit "data: {}") = lit "{}".
Proof. repeat split; reflexivity. Qed.

End JsStringFacts.

(** ** The text decoder is a machine on bytes *)

Module TextDecoderFacts.
Import TextDecoder.

Lemma decode_app (d : t) (u v : list Byte.byte) :
  decode d (u ++ v) =
  (fst (decode (fst (decode d u)) v),
   snd (decode d u) ++ snd (decode (fst (decode d u)) v)).
Proof.
  revert d; induction u as [|b u IH]; intros d; simpl.
  - destruct (decode d v); reflexivity.
  - destruct (step d b) as [d1 o1]. rewrite IH.
    destruct (decode d1 u) as [d2 o2]; simpl.
    rewrite app_assoc; reflexivity.
Qed.

(** Two bytes of one character in two chunks. *)
Example decode_split_character :
  let (d, a) := decode init [Byte.xc3] in
  let (_, b) := decode d [Byte.xa9; Byte.x0a] in
  (a, b) = ([], [233; 10]%N).
Proof. reflexivity. Qed.

Example decode_astral :
  snd (decode init [Byte.xf0; Byte.x9f; Byte.x98; Byte.x80]) = [55357; 56832]%N.
Proof. reflexivity. Qed.

Example decode_bom_and_stray_byte :
  snd (decode init [Byte.xef; Byte.xbb; Byte.xbf; Byte.x41; Byte.xe2; Byte.x41])
  = [65; 65533; 65]%N.
Proof. reflexivity. Qed.

End TextDecoderFacts.

(** ** Frames *)

Module FrameDecoderFacts.
Import FrameDecoder.

Lemma split_nn_sep c d s :
  is_nl c && is_nl d = true -> split_nn (c :: d :: s) = [] :: split_nn s.
Proof.
  intros E.
  change (split_nn (c :: d :: s))
    with (if is_nl c && is_nl d then [] :: split_nn s
          else push_front c (split_nn (d :: s))).
  rewrite E; reflexivity.
Qed.

Lemma split_nn_cons c d s :
  is_nl c && is_nl d = false ->
  split_nn (c :: d :: s) = push_front c (split_nn (d :: s)).
Proof.
  intros E.
  change (split_nn (c :: d :: s))
    with (if is_nl c && is_nl d then [] :: split_nn s
          else push_front c (split_nn (d :: s))).
  rewrite E; reflexivity.
Qed.

Lemma push_front_nonempty c l : push_front c l <> [].
Proof. destruct l; discriminate. Qed.

(** Two steps at a time, as [split_nn] recurses. *)
Lemma jsstring_ind2 (P : jsstring -> Prop) :
  P [] -> (forall c, P [c]) ->
  (forall c d s, P s -> P (d :: s) -> P (c :: d :: s)) ->
  forall s, P s.
Proof.
  intros H0 H1 H2 s.
  assert (P s /\ forall c, P (c :: s)) as [H _]; [|exact H].
  induction s as [|d s [IH1 IH2]]; split; auto.
Qed.

Lemma split_nn_nonempty (s : jsstring) : split_nn s <> [].
Proof.
  induction s as [| c | c d s _ _] using jsstring_ind2; try discriminate.
  destruct (is_nl c && is_nl d) eqn:E.
  - rewrite split_nn_sep by exact E; discriminate.
  - rewrite split_nn_cons by exact E; apply push_front_nonempty.
Qed.

Lemma removelast_push_front c p q l :
  removelast (push_front c (p :: q :: l)) = (c :: p) :: removelast (q :: l).
Proof. reflexivity. Qed.

Lemma last_push_front c p q l :
  last (push_front c (p :: q :: l)) [] = last (q :: l) [].
Proof. reflexivity. Qed.

Lemma is_nl_true c : is_nl c = true -> c = newline.
Proof. apply N.eqb_eq. Qed.

(** The pieces and the separators between them are the text. *)
Lemma unsplit_split_nn (s : jsstring) :
  unsplit (removelast (split_nn s)) (last (split_nn s) []) = s.
Proof.
  induction s as [| c | c d s IH1 IH2] using jsstring_ind2; try reflexivity.
  destruct (is_nl c && is_nl d) eqn:E.
  - rewrite split_nn_sep by exact E.
    apply andb_true_iff in E as [Ec Ed].
    apply is_nl_true in Ec, Ed; subst.
    pose proof (split_nn_nonempty s) as Hne.
    destruct (split_nn s) as [|p l] eqn:Es; [contradiction|].
    change (unsplit ([] :: removelast (p :: l)) (last (p :: l) [])
            = newline :: newline :: s).
    cbn [unsplit app]. rewrite IH1; reflexivity.
  - rewrite split_nn_cons by exact E.
    pose proof (split_nn_nonempty (d :: s)) as Hne.
    destruct (split_nn (d :: s)) as [|p [|q l]] eqn:Es; [contradiction| |].
    + simpl in IH2 |- *. rewrite IH2; reflexivity.
    + rewrite removelast_push_front, last_push_front.
      change (unsplit (p :: removelast (q :: l)) (last (q :: l) []) = d :: s)
        in IH2.
      cbn [unsplit] in IH2 |- *. rewrite <- app_comm_cons, IH2; reflexivity.
Qed.

Lemma split_nn_single (s p : jsstring) : split_nn s = [p] -> p = s.
Proof.
  intros E. pose proof (unsplit_split_nn s) as H.
  rewrite E in H. simpl in H. exact H.
Qed.

(** Text that arrives later does not change the frames already cut: the
    pieces of [s ++ t] are the complete pieces of [s], then the pieces of
    what [s] left in the buffer followed by [t]. *)
Lemma split_nn_app (s t : jsstring) :
  split_nn (s ++ t)
  = removelast (split_nn s) ++ split_nn (last (split_nn s) [] ++ t).
Proof.
  induction s as [| c | c d s IH1 IH2] using jsstring_ind2; try reflexivity.
  change ((c :: d :: s) ++ t) with (c :: d :: (s ++ t)).
  destruct (is_nl c && is_nl d) eqn:E.
  - rewrite !split_nn_sep by exact E. rewrite IH1.
    pose proof (split_nn_nonempty s) as Hne.
    destruct (split_nn s) as [|p l]; [contradiction | reflexivity].
  - rewrite (split_nn_cons c d s) by exact E.
    pose proof (split_nn_nonempty (d :: s)) as Hne.
    destruct (split_nn (d :: s)) as [|p [|q l]] eqn:Es; [contradiction| |].
    + (* nothing cut yet: all of [d :: s] is still in the buffer *)
      apply split_nn_single in Es; subst p. reflexivity.
    + rewrite removelast_push_front, last_push_front.
      rewrite split_nn_cons by exact E.
      change (d :: s ++ t) with ((d :: s) ++ t).
      rewrite IH2. reflexivity.
Qed.

Lemma removelast_app_nonempty {A} (l l' : list A) :
  l' <> [] -> removelast (l ++ l') = l ++ removelast l'.
Proof. intros H; apply removelast_app; exact H. Qed.

Lemma last_app_nonempty {A} (l l' : list A) (d : A) :
  l' <> [] -> last (l ++ l') d = last l' d.
Proof.
  intros H; induction l as [|a l IH]; [reflexivity|].
  simpl. destruct (l ++ l') eqn:E; [|exact IH].
  apply app_eq_nil in E as [_ E]; contradiction.
Qed.

(** What one turn of the loop does to the text read so far: if the buffer
    holds the last piece of [T], the turn emits the pieces that the new
    text completes and keeps the last piece of the longer text. *)
Lemma feed_spec (st : t) (T : jsstring) (value : list Byte.byte) :
  buffer st = last (split_nn T) [] ->
  let text := snd (TextDecoder.decode (decoder st) value) in
  removelast (split_nn T) ++ snd (feed st value)
    = removelast (split_nn (T ++ text))
  /\ buffer (fst (feed st value)) = last (split_nn (T ++ text)) []
  /\ decoder (fst (feed st value))
     = fst (TextDecoder.decode (decoder st) value).
Proof.
  intros Hb text. unfold feed, pop. subst text.
  destruct (TextDecoder.decode (decoder st) value) as [d text]; simpl.
  rewrite (split_nn_app T text), <- Hb.
  pose proof (split_nn_nonempty (buffer st ++ text)) as Hne.
  rewrite removelast_app_nonempty, last_app_nonempty by exact Hne.
  auto.
Qed.

Lemma feed_all_spec (chunks : list (list Byte.byte)) :
  forall (st : t) (T : jsstring),
  buffer st = last (split_nn T) [] ->
  let text := snd (TextDecoder.decode (decoder st) (List.concat chunks)) in
  removelast (split_nn T) ++ snd (feed_all st chunks)
    = removelast (split_nn (T ++ text))
  /\ buffer (fst (feed_all st chunks)) = last (split_nn (T ++ text)) [].
Proof.
  induction chunks as [|value more IH]; intros st T Hb; simpl.
  - rewrite !app_nil_r; auto.
  - destruct (feed_spec st T value Hb) as (Hl & Hb' & Hd).
    destruct (feed st value) as [st1 lines1]; simpl in Hl, Hb', Hd.
    specialize (IH st1 _ Hb'). simpl in IH.
    destruct (feed_all st1 more) as [st2 lines2]; simpl in IH |- *.
    rewrite TextDecoderFacts.decode_app; simpl.
    rewrite Hd in IH. rewrite <- app_assoc in IH.
    rewrite app_assoc, Hl. exact IH.
Qed.

(** The frames of a body are the pieces of its text but the last, which
    stays in the buffer, however the body is cut into chunks. *)
Lemma frames_spec (chunks : list (list Byte.byte)) :
  let text := snd (TextDecoder.decode TextDecoder.init (List.concat chunks)) in
  frames chunks = removelast (split_nn text)
  /\ buffer (fst (feed_all init chunks)) = last (split_nn text) [].
Proof.
  exact (feed_all_spec chunks init [] eq_refl).
Qed.

Lemma first_piece_head d s e p l :
  split_nn (d :: s) = (e :: p) :: l -> e = d.
Proof.
  destruct s as [|d' s].
  - simpl; congruence.
  - destruct (is_nl d && is_nl d') eqn:E.
    + rewrite split_nn_sep by exact E; discriminate.
    + rewrite split_nn_cons by exact E.
      destruct (split_nn (d' :: s)); simpl; congruence.
Qed.

Lemma whole_cons c p :
  whole p ->
  match p with e :: _ => is_nl c && is_nl e = false | [] => True end ->
  whole (c :: p).
Proof.
  unfold whole. destruct p as [|e p]; [reflexivity|].
  intros H E. rewrite split_nn_cons by exact E. rewrite H; reflexivity.
Qed.

(** No piece holds a separator that [split] would find. *)
Lemma split_nn_whole (s : jsstring) : Forall whole (split_nn s).
Proof.
  induction s as [| c | c d s IH1 IH2] using jsstring_ind2.
  - repeat constructor.
  - repeat constructor.
  - destruct (is_nl c && is_nl d) eqn:E.
    + rewrite split_nn_sep by exact E. constructor; [reflexivity | exact IH1].
    + rewrite split_nn_cons by exact E.
      pose proof (split_nn_nonempty (d :: s)) as Hne.
      destruct (split_nn (d :: s)) as [|p l] eqn:Es; [contradiction|].
      inversion IH2 as [|? ? Hp Hl]; subst.
      constructor; [|exact Hl].
      apply whole_cons; [exact Hp|].
      destruct p as [|e p]; [exact I|].
      apply first_piece_head in Es; subst e; exact E.
Qed.

Lemma Forall_removelast {A} (P : A -> Prop) (l : list A) :
  Forall P l -> Forall P (removelast l).
Proof.
  induction 1 as [|a l Ha Hl IH]; [constructor|].
  simpl. destruct l; [constructor | constructor; assumption].
Qed.

Lemma whole_tail c d f :
  whole (c :: d :: f) -> is_nl c && is_nl d = false /\ whole (d :: f).
Proof.
  unfold whole. intros H.
  destruct (is_nl c && is_nl d) eqn:E.
  - rewrite split_nn_sep in H by exact E. discriminate H.
  - split; [reflexivity|].
    rewrite split_nn_cons in H by exact E.
    pose proof (split_nn_nonempty (d :: f)) as Hne.
    destruct (split_nn (d :: f)) as [|p l]; [contradiction|].
    simpl in H. injection H as -> ->. reflexivity.
Qed.

(** A frame and the separator after it are cut off as that frame. *)
Lemma split_nn_frame (f t : jsstring) :
  Stream.frame_ok f ->
  split_nn (f ++ newline :: newline :: t) = f :: split_nn t.
Proof.
  intros [Hw Hl].
  induction f as [|c f IH].
  - apply split_nn_sep. reflexivity.
  - destruct f as [|d f].
    + simpl in Hl.
      assert (E : is_nl c && is_nl newline = false).
      { apply andb_false_iff; left. apply N.eqb_neq; exact Hl. }
      change (([c] ++ newline :: newline :: t)) with (c :: newline :: newline :: t).
      rewrite split_nn_cons by exact E.
      rewrite split_nn_sep by reflexivity. reflexivity.
    + apply whole_tail in Hw as [E Hw].
      change ((c :: d :: f) ++ newline :: newline :: t)
        with (c :: d :: (f ++ newline :: newline :: t)).
      rewrite split_nn_cons by exact E.
      change (d :: f ++ newline :: newline :: t)
        with ((d :: f) ++ newline :: newline :: t).
      rewrite IH; [reflexivity | exact Hw | exact Hl].
Qed.

Lemma split_nn_unsplit (fs : list jsstring) (rest : jsstring) :
  Forall Stream.frame_ok fs -> whole rest ->
  split_nn (unsplit fs rest) = fs ++ [rest].
Proof.
  intros Hfs Hrest. induction Hfs as [|f fs Hf _ IH]; [exact Hrest|].
  simpl. rewrite split_nn_frame by exact Hf. rewrite IH; reflexivity.
Qed.

Lemma split_nn_head_empty d s l :
  split_nn (d :: s) = [] :: l -> is_nl d = true.
Proof.
  destruct s as [|d' s].
  - simpl. discriminate.
  - destruct (is_nl d && is_nl d') eqn:E.
    + intros _. apply andb_true_iff in E as [E _]. exact E.
    + rewrite split_nn_cons by exact E.
      destruct (split_nn (d' :: s)); discriminate.
Qed.

Lemma last_cons_nonempty (c : N) (p : jsstring) (d : N) :
  p <> [] -> last (c :: p) d = last p d.
Proof. destruct p; [contradiction | reflexivity]. Qed.

(** No piece but the last ends in a line feed: the separator after a
    piece is the first one from where the piece begins. *)
Lemma split_nn_no_trailing_nl (s : jsstring) :
  Forall (fun f => last f 0%N <> newline) (removelast (split_nn s)).
Proof.
  induction s as [| c | c d s IH1 IH2] using jsstring_ind2.
  - constructor.
  - constructor.
  - destruct (is_nl c && is_nl d) eqn:E.
    + rewrite split_nn_sep by exact E.
      pose proof (split_nn_nonempty s) as Hne.
      destruct (split_nn s) as [|p l] eqn:Es; [contradiction|].
      change (removelast ([] :: p :: l)) with ([] :: removelast (p :: l)).
      constructor; [discriminate | exact IH1].
    + rewrite split_nn_cons by exact E.
      pose proof (split_nn_nonempty (d :: s)) as Hne.
      destruct (split_nn (d :: s)) as [|p [|q l]] eqn:Es; [contradiction| |].
      * constructor.
      * rewrite removelast_push_front.
        change (removelast (p :: q :: l)) with (p :: removelast (q :: l)) in IH2.
        inversion IH2 as [|? ? Hp Hl]; subst.
        constructor; [|exact Hl].
        destruct p as [|e p].
        -- apply split_nn_head_empty in Es.
           rewrite Es, andb_true_r in E. simpl.
           intros H. unfold is_nl in E. apply N.eqb_neq in E. contradiction.
        -- rewrite last_cons_nonempty by discriminate. exact Hp.
Qed.

Lemma last_In {A} (l : list A) (d : A) : l <> [] -> In (last l d) l.
Proof.
  induction l as [|a l IH]; [contradiction|]. intros _.
  destruct l as [|b l]; [left; reflexivity|].
  right. apply IH. discriminate.
Qed.

Lemma Forall_and {A} (P Q : A -> Prop) (l : list A) :
  Forall P l -> Forall Q l -> Forall (fun x => P x /\ Q x) l.
Proof.
  induction 1 as [|a l Ha Hl IH]; intros H; [constructor|].
  inversion H; subst. constructor; auto.
Qed.

(** A separator whose two line feeds arrive in two chunks. *)
Example separator_across_chunks :
  feed_all init [[Byte.x61; Byte.x0a]; [Byte.x0a; Byte.x62]; [Byte.x0a; Byte.x0a; Byte.x63]]
  = ({| decoder := TextDecoder.set_bom TextDecoder.init true; buffer := [99%N] |},
     [[97%N]; [98%N]]).
Proof. reflexivity. Qed.

(** C1. Two ways of cutting one byte stream into chunks give the reader
    loop the same frames, in the same order, and leave the same text
    pending in the buffer.  The frames are the complete frames of the
    stream and nothing else: the frames, each followed by the separator,
    and the pending text are the decoded text of the stream, so that no
    frame comes twice and no character of a frame is lost; every frame
    holds no separator and ends where the first separator after its
    beginning starts; the pending text holds no separator, so that no
    complete frame is held back; and whenever the text of the stream is
    some frames of that kind, each followed by the separator, and a rest
    without separator, the loop emits those very frames and keeps that
    rest. *)
Theorem chunk_boundary_independence (chunks chunks' : list (list Byte.byte)) :
  List.concat chunks = List.concat chunks' ->
  frames chunks = frames chunks'
  /\ buffer (fst (feed_all init chunks)) = buffer (fst (feed_all init chunks'))
  /\ unsplit (frames chunks) (buffer (fst (feed_all init chunks)))
     = snd (TextDecoder.decode TextDecoder.init (List.concat chunks))
  /\ Forall Stream.frame_ok (frames chunks)
  /\ whole (buffer (fst (feed_all init chunks)))
  /\ (forall (fs : list jsstring) (rest : jsstring),
        Forall Stream.frame_ok fs -> whole rest ->
        unsplit fs rest
          = snd (TextDecoder.decode TextDecoder.init (List.concat chunks)) ->
        frames chunks = fs /\ buffer (fst (feed_all init chunks)) = rest).
Proof.
  intros E.
  destruct (frames_spec chunks) as [Hf Hb].
  destruct (frames_spec chunks') as [Hf' Hb'].
  cbv zeta in Hf, Hb, Hf', Hb'.
  rewrite <- E in Hf', Hb'.
  set (T := snd (TextDecoder.decode TextDecoder.init (List.concat chunks))) in *.
  pose proof (split_nn_whole T) as Hw.
  split; [congruence|]. split; [congruence|].
  split; [rewrite Hf, Hb; apply unsplit_split_nn|].
  split; [|split].
  - rewrite Hf. apply Forall_and.
    + apply Forall_removelast. exact Hw.
    + apply split_nn_no_trailing_nl.
  - rewrite Hb. rewrite Forall_forall in Hw. apply Hw.
    apply last_In. apply split_nn_nonempty.
  - intros fs rest Hfs Hrest Hu.
    rewrite Hf, Hb, <- Hu, (split_nn_unsplit Hfs Hrest).
    rewrite removelast_last, last_last. auto.
Qed.

Lemma chunk_boundary_independence_witness :
  let chunks := [[Byte.x61; Byte.x0a]; [Byte.x0a; Byte.x62; Byte.x0a]; []; [Byte.x0a]] in
  let chunks' := [[Byte.x61; Byte.x0a; Byte.x0a; Byte.x62; Byte.x0a; Byte.x0a]] in
  List.concat chunks = List.concat chunks' /\
  frames chunks = frames chunks'.
Proof.
  split; [reflexivity|].
  apply (chunk_boundary_independence
           [[Byte.x61; Byte.x0a]; [Byte.x0a; Byte.x62; Byte.x0a]; []; [Byte.x0a]]
           [[Byte.x61; Byte.x0a; Byte.x0a; Byte.x62; Byte.x0a; Byte.x0a]]).
  reflexivity.
Defined.

End FrameDecoderFacts.

(** ** The event classifier and the loop over the frames *)

Module ApiFacts.

Section WithPlatform.

Variable JSON_parse : jsstring -> option JsonValue.
Variable ToString : JsAny -> jsstring.

Section WithCallbacks.

Variable S : Type.
Variable callbacks : ChatSSECallbacks S.

Lemma process_lines_app (l1 l2 : list jsstring) (st : S) :
  process_lines JSON_parse ToString callbacks (l1 ++ l2) st
  = process_lines JSON_parse ToString callbacks l2
      (process_lines JSON_parse ToString callbacks l1 st).
Proof. apply fold_left_app. Qed.

Lemma process_line_skipped (line : jsstring) (st : S) :
  classify JSON_parse line = None ->
  process_line JSON_parse ToString callbacks line st = st.
Proof. unfold process_line; intros ->; reflexivity. Qed.

(** A frame without the data prefix is passed over. *)
Lemma classify_no_prefix (line : jsstring) :
  startsWith (lit "data: ") (trim line) = false ->
  classify JSON_parse line = None.
Proof. unfold classify; intros ->; reflexivity. Qed.

(** A payload that parses to [null] is passed over as well. *)
Lemma classify_null (line : jsstring) :
  JSON_parse (slice 6 (trim line)) = Some JNull ->
  classify JSON_parse line = None.
Proof.
  unfold classify; intros ->.
  destruct (startsWith _ _); reflexivity.
Qed.

Lemma classify_unparsed (line : jsstring) :
  JSON_parse (slice 6 (trim line)) = None ->
  classify JSON_parse line = None.
Proof.
  unfold classify; intros ->.
  destruct (startsWith _ _); reflexivity.
Qed.

(** The loop is the frames of the body handed to [process_line] in
    order, however the body is cut into chunks. *)
Lemma read_loop_frames (chunks : list (list Byte.byte)) :
  forall (fd : FrameDecoder.t) (st : S),
  snd (read_loop JSON_parse ToString callbacks chunks fd st)
  = process_lines JSON_parse ToString callbacks
      (snd (FrameDecoder.feed_all fd chunks)) st.
Proof.
  induction chunks as [|value more IH]; intros fd st; simpl; [reflexivity|].
  destruct (FrameDecoder.feed fd value) as [fd' lines].
  rewrite IH. destruct (FrameDecoder.feed_all fd' more) as [fd'' lines'].
  simpl. rewrite process_lines_app; reflexivity.
Qed.

(** C7. A frame whose payload [JSON.parse] rejects is dropped: it is
    classified as no event, handling it leaves the state the callbacks
    act on as it was, whatever the callbacks are, and the frames around
    it are handled as if it were not there; whatever its frames are, a
    body that ends normally lets [sendChatMessage] resolve. *)
Theorem malformed_frame_dropped (line : jsstring) :
  JSON_parse (slice 6 (trim line)) = None ->
  classify JSON_parse line = None
  /\ (forall st : S,
        process_line JSON_parse ToString callbacks line st = st)
  /\ (forall (before after : list jsstring) (st : S),
        process_lines JSON_parse ToString callbacks
          (before ++ line :: after) st
        = process_lines JSON_parse ToString callbacks (before ++ after) st)
  /\ (forall (chunks : list (list Byte.byte)) (st : S),
        exists st',
          sendChatMessage JSON_parse ToString callbacks
            (Body chunks EndOfStream) st = Resolved st').
Proof.
  intros Hparse.
  pose proof (classify_unparsed line Hparse) as Hc.
  repeat split.
  - exact Hc.
  - intros st; apply process_line_skipped; exact Hc.
  - intros before after st.
    rewrite !process_lines_app.
    unfold process_lines at 1. cbn [fold_left].
    rewrite process_line_skipped by exact Hc. reflexivity.
  - intros chunks st. eexists; reflexivity.
Qed.

End WithCallbacks.

End WithPlatform.

Example classify_token :
  classify Sample.parse (32%N :: lit "data: " ++ Sample.token_payload ++ [10%N])
  = Some (EvToken (Some (JString (lit "Hi")))).
Proof. reflexivity. Qed.

Example classify_comment_line :
  classify Sample.parse (lit ": keep-alive") = None.
Proof. reflexivity. Qed.

(** A corrupt frame between two tokens, in a body that arrives in
    chunks of seven bytes: both tokens are shown, the reload is asked
    for, and [sendChatMessage] resolves. *)
Example corrupt_frame_in_a_stream :
  let start :=
    {| session := {| convId := lit "a"; fullResponse := text [] |};
       app := Sample.idle; out := [] |} in
  let chunks := Sample.cut 100 (Sample.bytes Sample.body_text) in
  exists r,
    sendChatMessage Sample.parse Sample.to_text (callbacks Sample.clk1)
      (Body chunks EndOfStream) start = Resolved r
    /\ fullResponse (session r) = text (lit "HiHi")
    /\ out r = [GetMessages (lit "a"); ListConversations; GetHealth]
    /\ messages (app r) = [].
Proof. cbv zeta. eexists. repeat split; reflexivity. Qed.

Lemma malformed_frame_dropped_witness :
  Sample.parse (slice 6 (trim (lit "data: {oops"))) = None
  /\ process_line Sample.parse Sample.to_text (callbacks Sample.clk1)
       (lit "data: {oops") Sample.streaming
     = Sample.streaming.
Proof.
  split; [reflexivity|].
  destruct (malformed_frame_dropped Sample.parse Sample.to_text
              (callbacks Sample.clk1) (lit "data: {oops") eq_refl)
    as (_ & H & _).
  apply H.
Defined.

End ApiFacts.

(** ** The session controller *)

Module SessionFacts.

Local Open Scope handler_scope.

(** What a [sendMessage] does when it goes past its guard: the render
    that made it saw no loading. *)
Lemma sendMessage_seeing_accepted seen clk message explicit st st' o s :
  sendMessage_seeing seen clk message explicit st = (st', o, Some s) ->
  exists c,
    target explicit st = Some c /\ c <> [] /\ seen = false
    /\ s = {| convId := c; fullResponse := text [] |}
    /\ o = [PostChat c message]
    /\ st' = {| conversations := conversations st;
                activeConvId := activeConvId st;
                messages := messages st ++ [userMsg clk c message];
                isLoading := true;
                streamingContent := text [];
                liveTrace := [];
                activeConvRef := activeConvRef st |}.
Proof.
  unfold sendMessage_seeing.
  destruct (target explicit st) as [[|x c]|] eqn:Et; simpl; try discriminate.
  destruct seen; simpl; [discriminate|].
  intros E; injection E as <- <- <-.
  exists (x :: c). repeat split; discriminate || reflexivity.
Qed.

(** The same for the [sendMessage] of the render that shows the state. *)
Lemma sendMessage_accepted clk message explicit st st' o s :
  sendMessage clk message explicit st = (st', o, Some s) ->
  exists c,
    target explicit st = Some c /\ c <> [] /\ isLoading st = false
    /\ s = {| convId := c; fullResponse := text [] |}
    /\ o = [PostChat c message]
    /\ st' = {| conversations := conversations st;
                activeConvId := activeConvId st;
                messages := messages st ++ [userMsg clk c message];
                isLoading := true;
                streamingContent := text [];
                liveTrace := [];
                activeConvRef := activeConvRef st |}.
Proof. apply sendMessage_seeing_accepted. Qed.


(** A [sendMessage] whose render saw no loading goes past the guard for
    every conversation id that is not empty, whatever [isLoading] is by
    now. *)
Lemma sendMessage_seeing_idle clk message (c : jsstring) st :
  c <> [] ->
  sendMessage_seeing false clk message (Some c) st
  = ({| conversations := conversations st;
        activeConvId := activeConvId st;
        messages := messages st ++ [userMsg clk c message];
        isLoading := true;
        streamingContent := text [];
        liveTrace := [];
        activeConvRef := activeConvRef st |},
     [PostChat c message],
     Some {| convId := c; fullResponse := text [] |}).
Proof.
  intros Hc. unfold sendMessage_seeing.
  destruct c as [|x c]; [contradiction|]. reflexivity.
Qed.


(** On texts, [+] is concatenation. *)
Lemma plus_text (s t : jsstring) :
  plus (text s) (Some (JString t)) = text (s ++ t).
Proof. reflexivity. Qed.

(** For events that are typed, what the stream leaves is a text, the one
    the specification words. *)
Lemma streamed_typed evs :
  forall acc,
  forallb Spec.typed evs = true ->
  Stream.streamed (text acc) evs = text (Spec.accumulatedTokens acc evs).
Proof.
  induction evs as [|ev evs IH]; intros acc Ht; [reflexivity|].
  simpl in Ht. apply andb_true_iff in Ht as [Hev Ht].
  destruct ev as [| e | [[]|] | [[]|] | d];
    try discriminate Hev; simpl; try rewrite plus_text; apply IH; exact Ht.
Qed.

Section WithToString.

Variable ToString : JsAny -> jsstring.

Lemma apply_events_app clk evs evs' r :
  apply_events ToString clk (evs ++ evs') r
  = apply_events ToString clk evs' (apply_events ToString clk evs r).
Proof. apply fold_left_app. Qed.

Lemma apply_events_cons clk ev evs r :
  apply_events ToString clk (ev :: evs) r
  = apply_events ToString clk evs (deliver ToString (callbacks clk) ev r).
Proof. reflexivity. Qed.

(** The closure variable after some events, whatever their payloads. *)
Lemma fullResponse_streamed clk evs :
  forall r,
  fullResponse (session (apply_events ToString clk evs r))
  = Stream.streamed (fullResponse (session r)) evs.
Proof.
  induction evs as [|ev evs IH]; intros r; [reflexivity|].
  rewrite apply_events_cons, IH.
  destruct ev; reflexivity.
Qed.

(** The closure variable follows the words of the specification, for
    every sequence of events that are typed. *)
Lemma fullResponse_accumulates clk evs :
  forall r acc,
  fullResponse (session r) = text acc ->
  forallb Spec.typed evs = true ->
  fullResponse (session (apply_events ToString clk evs r))
  = text (Spec.accumulatedTokens acc evs).
Proof.
  intros r acc Hr Ht. rewrite fullResponse_streamed, Hr.
  apply streamed_typed, Ht.
Qed.

(** No event changes the conversation a session belongs to. *)
Lemma convId_kept clk evs :
  forall r, convId (session (apply_events ToString clk evs r)) = convId (session r).
Proof.
  induction evs as [|ev evs IH]; intros r; [reflexivity|].
  rewrite apply_events_cons, IH.
  destruct ev; reflexivity.
Qed.

(** Tokens reach the text on the screen as they reach the closure. *)
Lemma tokens_append clk toks :
  forall r acc,
  fullResponse (session r) = text acc ->
  streamingContent (app r) = text acc ->
  let r' := apply_events ToString clk (tokens toks) r in
  fullResponse (session r') = text (acc ++ List.concat toks)
  /\ streamingContent (app r') = text (acc ++ List.concat toks).
Proof.
  induction toks as [|t toks IH]; intros r acc Hf Hs; cbv zeta.
  - simpl. rewrite app_nil_r; auto.
  - change (tokens (t :: toks)) with (EvToken (Some (JString t)) :: tokens toks).
    rewrite apply_events_cons.
    destruct (IH (deliver ToString (callbacks clk) (EvToken (Some (JString t))) r)
                 (acc ++ t)) as [H1 H2].
    + simpl. rewrite Hf. reflexivity.
    + simpl. rewrite Hf. reflexivity.
    + rewrite H1, H2. simpl. rewrite <- app_assoc. auto.
Qed.

(** What the events of a stream that goes on leave alone. *)
Lemma nonterminal_frame clk evs :
  forall r,
  forallb nonterminal evs = true ->
  let r' := apply_events ToString clk evs r in
  messages (app r') = messages (app r)
  /\ isLoading (app r') = isLoading (app r)
  /\ conversations (app r') = conversations (app r)
  /\ activeConvId (app r') = activeConvId (app r)
  /\ activeConvRef (app r') = activeConvRef (app r)
  /\ out r' = out r.
Proof.
  induction evs as [|ev evs IH]; intros r Hn; [simpl; rewrite ?app_nil_r; auto 7|].
  simpl in Hn. apply andb_true_iff in Hn as [Hev Hn].
  rewrite apply_events_cons.
  specialize (IH (deliver ToString (callbacks clk) ev r) Hn). cbv zeta in *.
  destruct IH as (H1 & H2 & H3 & H4 & H5 & H6).
  rewrite H1, H2, H3, H4, H5, H6.
  destruct ev; try discriminate; simpl; rewrite ?app_nil_r; auto 7.
Qed.

(** C2. In a session that [sendMessage] has started, the text accumulated
    after some [stream_token] events is the concatenation of their
    fragments in the order of arrival, in the closure and on the screen;
    a [full_response] event, after whatever events came before it, makes
    the accumulator and the screen exactly its payload, stored as it
    came, whatever was accumulated before; tokens that follow a payload
    that is a text append to it; and for every sequence of events whose
    tokens and full responses carry texts the accumulator is the one the
    specification words. *)
Theorem tokens_concatenate_full_response_replaces
  clk clk' message explicit st st' o s
  (before : list Event) (toks toks' : list jsstring) (msg : jsstring)
  (payload : JsAny) :
  sendMessage clk message explicit st = (st', o, Some s) ->
  let r0 := {| session := s; app := st'; out := o |} in
  let r1 := apply_events ToString clk' (tokens toks) r0 in
  let r2 := apply_events ToString clk'
              (before ++ [EvFullResponse (Some (JString msg))]) r0 in
  let r3 := apply_events ToString clk' (tokens toks') r2 in
  let r4 := apply_events ToString clk' (before ++ [EvFullResponse payload]) r0 in
  (fullResponse (session r1) = text (List.concat toks)
   /\ streamingContent (app r1) = text (List.concat toks))
  /\ (fullResponse (session r4) = Raw payload
      /\ streamingContent (app r4) = Raw payload)
  /\ (fullResponse (session r2) = text msg
      /\ streamingContent (app r2) = text msg)
  /\ (fullResponse (session r3) = text (msg ++ List.concat toks')
      /\ streamingContent (app r3) = text (msg ++ List.concat toks'))
  /\ (forall evs,
        forallb Spec.typed evs = true ->
        fullResponse (session (apply_events ToString clk' evs r0))
        = text (Spec.accumulatedTokens [] evs)).
Proof.
  intros Hs r0 r1 r2 r3 r4.
  apply sendMessage_accepted in Hs as (c & _ & _ & _ & -> & -> & ->).
  assert (H4 : forall m,
            let r := apply_events ToString clk' (before ++ [EvFullResponse m]) r0 in
            fullResponse (session r) = Raw m /\ streamingContent (app r) = Raw m).
  { intros m; cbv zeta. rewrite apply_events_app.
    generalize (apply_events ToString clk' before r0); intros r.
    split; reflexivity. }
  pose proof (H4 (Some (JString msg))) as H2. cbv zeta in H2. fold r2 in H2.
  split; [|split; [exact (H4 payload)|split; [exact H2|split]]].
  - exact (@tokens_append clk' toks r0 [] eq_refl eq_refl).
  - destruct H2 as [Hf Hc].
    exact (@tokens_append clk' toks' r2 msg Hf Hc).
  - intros evs Ht. exact (@fullResponse_accumulates clk' evs r0 [] eq_refl Ht).
Qed.

(** C3, amended. In a session that [sendMessage] has started and whose
    stream has brought trace, token and full-response events, an [error]
    event leaves the message list as it was at the submit, with the
    message of the user that the submit appended and after it one
    message of the assistant that holds the text of the error; the trace
    and the streamed text on the screen are empty and the component is
    no longer loading. *)
Theorem error_event_fails_session
  clk clk' message explicit st st' o s (evs : list Event) (error : jsstring) :
  sendMessage clk message explicit st = (st', o, Some s) ->
  forallb nonterminal evs = true ->
  let r := apply_events ToString clk'
             (evs ++ [EvError (Some (JString error))])
             {| session := s; app := st'; out := o |} in
  messages (app r)
    = messages st ++ [userMsg clk (convId s) message;
                      errMsg clk' (convId s) error]
  /\ role (errMsg clk' (convId s) error) = assistant
  /\ content (errMsg clk' (convId s) error)
     = cross_mark :: lit " Error: " ++ error
  /\ role (userMsg clk (convId s) message) = user
  /\ content (userMsg clk (convId s) message) = message
  /\ liveTrace (app r) = []
  /\ streamingContent (app r) = text []
  /\ isLoading (app r) = false.
Proof.
  intros Hs Hn r. subst r. rewrite apply_events_app.
  pose proof (nonterminal_frame clk' evs
                {| session := s; app := st'; out := o |} Hn) as Hf.
  pose proof (convId_kept clk' evs {| session := s; app := st'; out := o |}) as Hc.
  cbv zeta in Hf. destruct Hf as (Hm & _).
  apply sendMessage_accepted in Hs as (c & _ & _ & _ & -> & -> & ->).
  revert Hm Hc.
  generalize (apply_events ToString clk' evs
    {| session := {| convId := c; fullResponse := text [] |};
       app := {| conversations := conversations st;
                 activeConvId := activeConvId st;
                 messages := messages st ++ [userMsg clk c message];
                 isLoading := true; streamingContent := text []; liveTrace := [];
                 activeConvRef := activeConvRef st |};
       out := [PostChat c message] |}).
  intros r Hm Hc; simpl in Hm, Hc |- *.
  rewrite Hm, Hc, <- app_assoc. simpl. repeat split; reflexivity.
Qed.

End WithToString.

Lemma tokens_concatenate_full_response_replaces_witness :
  let r := apply_events Sample.to_text Sample.clk1
             ([EvTrace (Sample.step_event "orchestrator");
               EvToken (Some (JString (lit "draft")))]
              ++ [EvFullResponse (Some (JString (lit "Quantum")))])
             Sample.streaming in
  fullResponse (session (apply_events Sample.to_text Sample.clk1
                           (tokens [lit " comp"; lit "uting"]) r))
  = text (lit "Quantum computing").
Proof.
  cbv zeta.
  pose proof (tokens_concatenate_full_response_replaces Sample.to_text
                Sample.clk0 Sample.clk1 (lit "What is quantum computing?") None
                Sample.idle
                ([EvTrace (Sample.step_event "orchestrator");
                  EvToken (Some (JString (lit "Qu")));
                  EvTrace (Sample.step_event "orchestrator");
                  EvToken (Some (JString (lit "draft")))])
                [] [lit " comp"; lit "uting"] (lit "Quantum") None eq_refl) as H.
  cbv zeta in H. destruct H as (_ & _ & _ & [H _] & _).
  exact H.
Defined.

(** C3, as claimed, fails: the [error] event leaves the accumulator of
    the session as it was.  After one trace event and the token [Qu] it
    still holds [Qu]. *)
Lemma error_clears_accumulator_counterexample :
  fullResponse (session Sample.streaming) = text (lit "Qu")
  /\ fullResponse (session (deliver Sample.to_text (callbacks Sample.clk1)
                              (EvError (Some (JString (lit "model unavailable"))))
                              Sample.streaming))
     = text (lit "Qu")
  /\ ~ Spec.error_clears_accumulator Sample.to_text Sample.clk1
         (Some (JString (lit "model unavailable"))) Sample.streaming.
Proof.
  split; [reflexivity | split; [reflexivity|]].
  unfold Spec.error_clears_accumulator. intros H. discriminate H.
Qed.

(** The scenario of the specification: the error [model unavailable]
    after two trace events and one token. *)
Lemma error_event_fails_session_witness :
  let r := apply_events Sample.to_text Sample.clk1
             ([EvTrace (Sample.step_event "orchestrator");
               EvTrace (Sample.step_event "retrieval");
               EvToken (Some (JString (lit "Qu")))]
              ++ [EvError (Some (JString (lit "model unavailable")))])
             {| session := {| convId := lit "a"; fullResponse := text [] |};
                app := fst (fst (sendMessage Sample.clk0 (lit "What?") None Sample.idle));
                out := snd (fst (sendMessage Sample.clk0 (lit "What?") None Sample.idle)) |} in
  messages (app r)
    = [userMsg Sample.clk0 (lit "a") (lit "What?");
       errMsg Sample.clk1 (lit "a") (lit "model unavailable")]
  /\ liveTrace (app r) = []
  /\ streamingContent (app r) = text [].
Proof.
  cbv zeta.
  destruct (error_event_fails_session Sample.to_text
              Sample.clk0 Sample.clk1 (lit "What?") None Sample.idle
              [EvTrace (Sample.step_event "orchestrator");
               EvTrace (Sample.step_event "retrieval");
               EvToken (Some (JString (lit "Qu")))]
              (lit "model unavailable") eq_refl eq_refl)
    as (Hm & _ & _ & _ & _ & Ht & Hc & _).
  split; [exact Hm | split; [exact Ht | exact Hc]].
Defined.

(** While the stream of a session goes on, the component is loading. *)
Lemma busy_while_streaming ToString clk clk' message explicit st st' o s evs :
  sendMessage clk message explicit st = (st', o, Some s) ->
  forallb nonterminal evs = true ->
  isLoading (app (apply_events ToString clk' evs
                    {| session := s; app := st'; out := o |})) = true.
Proof.
  intros Hs Hn.
  destruct (nonterminal_frame ToString clk' evs
              {| session := s; app := st'; out := o |} Hn) as (_ & Hl & _).
  rewrite Hl.
  apply sendMessage_accepted in Hs as (c & _ & _ & _ & _ & _ & ->).
  reflexivity.
Qed.


(** C4 fails in the code.  With no conversation selected, two messages
    are sent one after the other before the component renders again, so
    that both [handleSendNoConv] hold the [sendMessage] of a render that
    saw no loading.  The first creates conversation [a] and starts its
    session; the component is loading.  The second creates conversation
    [b], and its submit is not refused: the list of messages holds the
    second message only, a second request is sent, and two sessions are
    under way. *)
Example submit_while_streaming_is_accepted :
  let first := Upload.handleSendNoConv_settled false Sample.clk0
                 (lit "What is quantum computing?") (Some Sample.conv_a)
                 initial in
  let st1 := fst (fst first) in
  let second := Upload.handleSendNoConv_settled false Sample.clk1
                  (lit "And proteins?") (Some Sample.conv_b) st1 in
  let st2 := fst (fst second) in
  activeConvId initial = None
  /\ snd first = Some {| convId := lit "a"; fullResponse := text [] |}
  /\ isLoading st1 = true
  /\ messages st1
     = [userMsg Sample.clk0 (lit "a") (lit "What is quantum computing?")]
  /\ snd second = Some {| convId := lit "b"; fullResponse := text [] |}
  /\ messages st2 = [userMsg Sample.clk1 (lit "b") (lit "And proteins?")]
  /\ messages st2 <> messages st1
  /\ conversations st2 <> conversations st1
  /\ In (PostChat (lit "b") (lit "And proteins?")) (snd (fst second)).
Proof.
  cbv zeta. repeat split; try reflexivity; try discriminate.
  vm_compute. auto.
Qed.




End SessionFacts.

(** ** Failures of the transport *)

Module TransportFacts.

Import SessionFacts.

Section WithPlatform.

Variable JSON_parse : jsstring -> option JsonValue.
Variable ToString : JsAny -> jsstring.

(** A response that is not ok is surfaced: the message of the user, then
    one message of the assistant with the detail of the error; nothing of
    a stream is kept and the component is no longer loading. *)
Lemma not_ok_surfaces_error
  clk clk' message explicit st st' o s body statusText error :
  sendMessage clk message explicit st = (st', o, Some s) ->
  error_detail ToString body statusText = Some error ->
  let r := exchange JSON_parse ToString clk clk' message explicit
             (NotOk body statusText) st in
  messages (fst r)
    = messages st ++ [userMsg clk (convId s) message;
                      errMsg clk' (convId s) error]
  /\ isLoading (fst r) = false
  /\ streamingContent (fst r) = text []
  /\ liveTrace (fst r) = [].
Proof.
  intros Hs He r. subst r. unfold exchange. rewrite Hs.
  apply sendMessage_accepted in Hs as (c & _ & _ & _ & -> & -> & ->).
  simpl. rewrite He. simpl. rewrite <- app_assoc. auto.
Qed.

(** A [fetch] that rejects is caught at the end of [sendMessage], which
    writes to the console and stops loading: the message list gets the
    message of the user and nothing after it. *)
Lemma rejected_fetch_only_logs clk clk' message explicit st st' o s :
  sendMessage clk message explicit st = (st', o, Some s) ->
  let r := exchange JSON_parse ToString clk clk' message explicit Rejected st in
  messages (fst r) = messages st ++ [userMsg clk (convId s) message]
  /\ isLoading (fst r) = false
  /\ streamingContent (fst r) = text []
  /\ liveTrace (fst r) = []
  /\ snd r = [PostChat (convId s) message; ConsoleError (lit "Send failed:")].
Proof.
  intros Hs r. subst r. unfold exchange. rewrite Hs.
  apply sendMessage_accepted in Hs as (c & _ & _ & _ & -> & -> & ->).
  simpl. auto.
Qed.

End WithPlatform.

(** C6, at a request that never gets a response: the user asks in
    conversation [a] and [fetch] rejects.  The component stops loading
    and keeps nothing of a stream, but the message list holds the
    message of the user alone: no message of the assistant tells of the
    failure, which reaches the console only. *)
Example rejected_fetch_surfaces_no_message :
  let r := exchange Sample.parse Sample.to_text Sample.clk0 Sample.clk1
             (lit "What is quantum computing?") None Rejected Sample.idle in
  messages (fst r)
    = [userMsg Sample.clk0 (lit "a") (lit "What is quantum computing?")]
  /\ existsb is_assistant (messages (fst r)) = false
  /\ isLoading (fst r) = false
  /\ streamingContent (fst r) = text []
  /\ liveTrace (fst r) = []
  /\ snd r = [PostChat (lit "a") (lit "What is quantum computing?");
              ConsoleError (lit "Send failed:")].
Proof. cbv zeta. repeat split; reflexivity. Qed.

(** The other transport failure, a status that is not ok, does put the
    failure in the message list. *)
Example not_ok_status_surfaces_message :
  let r := exchange Sample.parse Sample.to_text Sample.clk0 Sample.clk1
             (lit "What is quantum computing?") None
             (NotOk (Some (JObject [(lit "detail", JString (lit "Model not found"))]))
                    (lit "Not Found"))
             Sample.idle in
  map content (messages (fst r))
    = [lit "What is quantum computing?";
       cross_mark :: lit " Error: Model not found"]
  /\ map role (messages (fst r)) = [user; assistant].
Proof. cbv zeta. split; reflexivity. Qed.

End TransportFacts.

(** ** The conversation store *)

Module StoreFacts.

Lemma sorted_desc_cons c l :
  sorted_desc (c :: l) = true ->
  sorted_desc l = true /\ Forall (newer c) l.
Proof.
  revert c; induction l as [|d l IH]; intros c H; [split; constructor|].
  change (Qle_bool (updated_at d) (updated_at c) && sorted_desc (d :: l) = true) in H.
  apply andb_true_iff in H as [Hle Hs]. apply Qle_bool_iff in Hle.
  split; [exact Hs|].
  constructor; [exact Hle|].
  destruct (IH d Hs) as [_ Hall].
  eapply Forall_impl; [|exact Hall].
  intros e He; unfold newer in *. eapply Qle_trans; eauto.
Qed.

Lemma sorted_desc_intro c l :
  sorted_desc l = true -> Forall (newer c) l -> sorted_desc (c :: l) = true.
Proof.
  intros Hs Hall. destruct l as [|d l]; [reflexivity|].
  change (Qle_bool (updated_at d) (updated_at c) && sorted_desc (d :: l) = true).
  apply andb_true_iff; split; [|exact Hs].
  apply Qle_bool_iff. inversion Hall; assumption.
Qed.

(** Deleting keeps the order. *)
Lemma without_sorted id0 l :
  sorted_desc l = true -> sorted_desc (without id0 l) = true.
Proof.
  induction l as [|c l IH]; intros H; [reflexivity|].
  apply sorted_desc_cons in H as [Hs Hall].
  unfold without in *; simpl.
  destruct (negb (JsString.eqb (id c) id0)); [|auto].
  apply sorted_desc_intro; [auto|].
  apply Forall_forall; intros d Hd. apply filter_In in Hd as [Hd _].
  rewrite Forall_forall in Hall; auto.
Qed.

Lemma delete_conversations id0 st :
  conversations (fst (deleteConversation_settled id0 true st))
  = without id0 (conversations st).
Proof.
  unfold deleteConversation_settled.
  destruct (ref_is id0 (activeConvRef st)); [|reflexivity].
  destruct (without id0 (conversations st)); reflexivity.
Qed.

Lemma delete_keeps_sorted id0 ok st :
  sorted_desc (conversations st) = true ->
  sorted_desc (conversations (fst (deleteConversation_settled id0 ok st))) = true.
Proof.
  intros H. destruct ok; [|exact H].
  rewrite delete_conversations. apply without_sorted; exact H.
Qed.

(** The first load keeps the list of the server as it comes and selects
    its first conversation, which is the most recent one when the server
    sends the list in order. *)
Lemma mount_selects_first convs st :
  let st' := fst (mount_listed (Some convs) st) in
  conversations st' = convs
  /\ activeConvId st'
     = match convs with c :: _ => Some (id c) | [] => activeConvId st end
  /\ (sorted_desc convs = true ->
      match convs with c :: rest => Forall (newer c) rest | [] => True end).
Proof.
  destruct convs as [|c rest]; simpl; repeat split; auto.
  intros H; apply sorted_desc_cons in H as [_ H]; exact H.
Qed.

(** A new conversation goes to the front. *)
Lemma create_keeps_sorted conv st :
  sorted_desc (conversations st) = true ->
  Forall (newer conv) (conversations st) ->
  sorted_desc (conversations
                 (fst (fst (newConversation_settled (Some conv) st)))) = true.
Proof. intros Hs Hall; simpl. apply sorted_desc_intro; assumption. Qed.

(** C8, at a rename of a conversation that is not the first: the store
    holds [a] (updated at 200 s) before [b] (updated at 100 s), in
    order, and [b] is renamed at 300 s.  The rename stamps [b] with the
    time of the rename and leaves it in its place, behind the older [a]:
    the list is no longer in descending order of [updated_at]. *)
Example rename_breaks_order :
  let st := fst (renameConversation_settled 300000 (lit "b") (lit "Folding")
                   true Sample.idle) in
  sorted_desc (conversations Sample.idle) = true
  /\ map id (conversations st) = [lit "a"; lit "b"]
  /\ map updated_at (conversations st) = [inject_Z 200; Qmake 300000 1000]
  /\ sorted_desc (conversations st) = false.
Proof. cbv zeta. repeat split; reflexivity. Qed.



Lemma without_In id0 l c :
  In c (without id0 l) <-> In c l /\ id c <> id0.
Proof.
  unfold without. rewrite filter_In, negb_true_iff, JsStringFacts.eqb_neq.
  reflexivity.
Qed.

Lemma ref_is_true id0 r : ref_is id0 r = true <-> r = Some id0.
Proof.
  destruct r as [a|]; simpl; [|split; discriminate].
  rewrite JsStringFacts.eqb_eq. split; congruence.
Qed.

(** C10. After a successful delete the list holds the conversations it
    held, in their order, but the deleted one.  When the deleted
    conversation is not the selected one, the selection and the message
    list are as before and nothing is requested; when it is, the
    selection becomes the first conversation that remains, or none when
    none remains.  So the selection changes only when the selected
    conversation is deleted. *)
Theorem delete_changes_selection_only_when_active (id0 : jsstring) (st : AppState) :
  activeConvRef st = activeConvId st ->
  let r := deleteConversation_settled id0 true st in
  conversations (fst r) = without id0 (conversations st)
  /\ (forall c, In c (conversations (fst r))
                <-> In c (conversations st) /\ id c <> id0)
  /\ (activeConvId st <> Some id0 ->
      activeConvId (fst r) = activeConvId st
      /\ messages (fst r) = messages st
      /\ snd r = [])
  /\ (activeConvId st = Some id0 ->
      activeConvId (fst r)
      = match without id0 (conversations st) with
        | first :: _ => Some (id first)
        | [] => None
        end)
  /\ (activeConvId (fst r) <> activeConvId st -> activeConvId st = Some id0).
Proof.
  intros Href r. subst r.
  split; [apply delete_conversations|].
  split; [intros c; rewrite delete_conversations; apply without_In|].
  unfold deleteConversation_settled.
  destruct (ref_is id0 (activeConvRef st)) eqn:Er.
  - apply ref_is_true in Er. rewrite Href in Er.
    split; [intros H; contradiction|].
    destruct (without id0 (conversations st)) as [|first rest]; simpl; auto.
  - assert (Hne : activeConvId st <> Some id0).
    { intros H. rewrite <- Href in H. apply ref_is_true in H. congruence. }
    simpl. split; [auto|]. split; [intros H; contradiction|].
    intros H; contradiction H; reflexivity.
Qed.

Lemma delete_changes_selection_only_when_active_witness :
  let r := deleteConversation_settled (lit "b") true Sample.idle in
  map id (conversations (fst r)) = [lit "a"]
  /\ activeConvId (fst r) = Some (lit "a")
  /\ messages (fst r) = messages Sample.idle.
Proof.
  cbv zeta.
  destruct (delete_changes_selection_only_when_active (lit "b") Sample.idle eq_refl)
    as (Hc & _ & Hother & _).
  destruct Hother as (Ha & Hm & _); [discriminate|].
  split; [rewrite Hc; reflexivity | split; [exact Ha | exact Hm]].
Defined.

End StoreFacts.

(** * Further properties *)

(** ** The stream as a whole *)

Module StreamFacts.
Import FrameDecoder FrameDecoderFacts Stream.

Lemma encode_decode_ascii (s : jsstring) :
  ascii s ->
  forall d, TextDecoder.bytes_needed d = 0%N ->
  snd (TextDecoder.decode d (encode s)) = s
  /\ TextDecoder.bytes_needed (fst (TextDecoder.decode d (encode s))) = 0%N.
Proof.
  induction 1 as [|c s Hc Hs IH]; intros d Hd; [simpl; auto|].
  simpl.
  assert (Hb : exists b, Byte.of_N c = Some b /\ Byte.to_N b = c).
  { destruct (Byte.of_N c) as [b|] eqn:E.
    - exists b; split; [reflexivity | apply Byte.to_of_N; exact E].
    - apply Byte.of_N_None_iff in E. lia. }
  destruct Hb as (b & -> & Hb).
  unfold TextDecoder.step, TextDecoder.handle. rewrite Hb, Hd. simpl.
  unfold TextDecoder.lead.
  assert (Hle : (c <=? 127)%N = true) by (apply N.leb_le; lia).
  rewrite Hle. simpl.
  assert (Hbom : (c =? 65279)%N = false) by (apply N.eqb_neq; lia).
  rewrite Hbom, andb_false_r.
  unfold TextDecoder.utf16.
  assert (Hlt : (c <? 65536)%N = true) by (apply N.ltb_lt; lia).
  rewrite Hlt. simpl.
  destruct (IH (TextDecoder.set_bom d true) Hd) as [H1 H2].
  destruct (TextDecoder.decode (TextDecoder.set_bom d true) (encode s)) as [d2 o2].
  simpl in *. subst o2. auto.
Qed.




Lemma body_text_encode (s : jsstring) (chunks : list (list Byte.byte)) :
  ascii s -> List.concat chunks = encode s -> body_text chunks = s.
Proof.
  intros Ha E. unfold body_text. rewrite E.
  apply (encode_decode_ascii Ha TextDecoder.init eq_refl).
Qed.

(** X1. Framing is a round trip.  When a server writes frames of ASCII
    text, each without a blank line inside and without a line feed at its
    end, follows each with a blank line and may leave some text after the
    last one, the reader loop cuts the body back into those frames, in
    order, however the bytes come in chunks, and keeps the text after the
    last blank line in its buffer. *)
Theorem framing_round_trip
  (fs : list jsstring) (rest : jsstring) (chunks : list (list Byte.byte)) :
  ascii (unsplit fs rest) ->
  Forall frame_ok fs ->
  whole rest ->
  List.concat chunks = encode (unsplit fs rest) ->
  frames chunks = fs
  /\ buffer (fst (feed_all init chunks)) = rest.
Proof.
  intros Ha Hfs Hrest E.
  destruct (frames_spec chunks) as [Hf Hb]. cbv zeta in Hf, Hb.
  fold (body_text chunks) in Hf, Hb.
  rewrite (@body_text_encode _ _ Ha E) in Hf, Hb.
  rewrite split_nn_unsplit in Hf, Hb by assumption.
  rewrite removelast_last in Hf. rewrite last_last in Hb. auto.
Qed.

Lemma framing_round_trip_witness :
  frames (Sample.cut 100 (encode (unsplit [lit "data: a"; lit ": ping"] (lit "data: b"))))
  = [lit "data: a"; lit ": ping"].
Proof.
  apply (@framing_round_trip [lit "data: a"; lit ": ping"] (lit "data: b")
           (Sample.cut 100
              (encode (unsplit [lit "data: a"; lit ": ping"] (lit "data: b"))))).
  - repeat constructor.
  - repeat constructor; discriminate.
  - reflexivity.
  - reflexivity.
Defined.

Section WithCallbacks.

Variable JSON_parse : jsstring -> option JsonValue.
Variable ToString : JsAny -> jsstring.
Variable S : Type.
Variable callbacks : ChatSSECallbacks S.

(** The state in which [sendChatMessage] leaves the callbacks' state for
    a body: the pieces of its text but the last, handled in order. *)
Lemma body_outcome (chunks : list (list Byte.byte)) (ending : Ending) (st : S) :
  final (sendChatMessage JSON_parse ToString callbacks (Body chunks ending) st)
  = process_lines JSON_parse ToString callbacks
      (removelast (split_nn (body_text chunks))) st.
Proof.
  simpl. rewrite ApiFacts.read_loop_frames.
  destruct (frames_spec chunks) as [Hf _]. cbv zeta in Hf.
  fold (frames chunks). rewrite Hf.
  destruct ending; reflexivity.
Qed.

(** X2. What [sendChatMessage] makes of a body depends on its bytes
    alone: two ways of cutting one byte stream into chunks run the same
    callbacks in the same order and settle the promise alike. *)
Theorem chat_outcome_chunk_independent
  (chunks chunks' : list (list Byte.byte)) (ending : Ending) (st : S) :
  List.concat chunks = List.concat chunks' ->
  sendChatMessage JSON_parse ToString callbacks (Body chunks ending) st
  = sendChatMessage JSON_parse ToString callbacks (Body chunks' ending) st.
Proof.
  intros E.
  pose proof (body_outcome chunks ending st) as H.
  pose proof (body_outcome chunks' ending st) as H'.
  unfold body_text in H, H'. rewrite <- E in H'. rewrite <- H' in H.
  simpl in H |- *. destruct ending; simpl in H |- *; rewrite H; reflexivity.
Qed.

(** X3. A body without a blank line runs no callback, whatever it holds:
    a payload, however complete, that the body ends without the blank
    line after it is never delivered. *)
Theorem unterminated_frame_is_lost
  (chunks : list (list Byte.byte)) (ending : Ending) (st : S) :
  whole (body_text chunks) ->
  final (sendChatMessage JSON_parse ToString callbacks (Body chunks ending) st)
  = st.
Proof.
  intros Hw. rewrite body_outcome. unfold whole in Hw. rewrite Hw.
  reflexivity.
Qed.

End WithCallbacks.

Lemma chat_outcome_chunk_independent_witness :
  sendChatMessage Sample.parse Sample.to_text (callbacks Sample.clk1)
    (Body (Sample.cut 100 (Sample.bytes Sample.body_text)) EndOfStream)
    Sample.streaming
  = sendChatMessage Sample.parse Sample.to_text (callbacks Sample.clk1)
      (Body [Sample.bytes Sample.body_text] EndOfStream) Sample.streaming.
Proof.
  apply (chat_outcome_chunk_independent Sample.parse Sample.to_text
           (callbacks Sample.clk1)
           (Sample.cut 100 (Sample.bytes Sample.body_text))
           [Sample.bytes Sample.body_text] EndOfStream Sample.streaming).
  reflexivity.
Defined.

(** A [done] frame that the body ends one line feed short of. *)
Lemma unterminated_frame_is_lost_witness :
  final (sendChatMessage Sample.parse Sample.to_text (callbacks Sample.clk1)
           (Body [encode (lit "data: " ++ Sample.done_payload ++ [10%N])] EndOfStream)
           Sample.streaming)
  = Sample.streaming.
Proof.
  apply (unterminated_frame_is_lost Sample.parse Sample.to_text
           (callbacks Sample.clk1)
           [encode (lit "data: " ++ Sample.done_payload ++ [10%N])]
           EndOfStream Sample.streaming).
  reflexivity.
Defined.

End StreamFacts.

(** ** A session from the submit to the end of its stream *)

Module LifecycleFacts.
Import Stream SessionFacts.

Section WithPlatform.

Variable JSON_parse : jsstring -> option JsonValue.
Variable ToString : JsAny -> jsstring.

(** The loop over the frames is the events of the frames applied in
    order. *)
Lemma process_lines_events clk (lines : list jsstring) :
  forall r,
  process_lines JSON_parse ToString (callbacks clk) lines r
  = apply_events ToString clk (classify_all JSON_parse lines) r.
Proof.
  induction lines as [|line lines IH]; intros r; [reflexivity|].
  unfold process_lines in *. cbn [fold_left]. rewrite IH.
  unfold classify_all; cbn [flat_map]. fold (classify_all JSON_parse lines).
  unfold process_line.
  destruct (classify JSON_parse line); reflexivity.
Qed.

Lemma exchange_body clk clk' message explicit st st' o s chunks ending :
  sendMessage clk message explicit st = (st', o, Some s) ->
  exchange JSON_parse ToString clk clk' message explicit (Body chunks ending) st
  = let r := apply_events ToString clk' (body_events JSON_parse chunks)
               {| session := s; app := st'; out := o |} in
    match ending with
    | EndOfStream => (app r, out r)
    | ReadError =>
        (app (sendMessage_settled (Threw r)), out (sendMessage_settled (Threw r)))
    end.
Proof.
  intros Hs. unfold exchange. rewrite Hs.
  cbn [sendChatMessage]. rewrite ApiFacts.read_loop_frames.
  rewrite process_lines_events. fold (FrameDecoder.frames chunks).
  destruct ending; reflexivity.
Qed.

(** While the stream goes on, the screen shows the text of the closure
    and the trace grows by the trace events. *)
Lemma nonterminal_view clk evs :
  forall r,
  forallb nonterminal evs = true ->
  streamingContent (app r) = fullResponse (session r) ->
  let r' := apply_events ToString clk evs r in
  streamingContent (app r') = streamed (fullResponse (session r)) evs
  /\ fullResponse (session r') = streamed (fullResponse (session r)) evs
  /\ liveTrace (app r') = liveTrace (app r) ++ traces evs.
Proof.
  induction evs as [|ev evs IH]; intros r Hn Hr; cbv zeta.
  - simpl. rewrite app_nil_r. auto.
  - simpl in Hn. apply andb_true_iff in Hn as [Hev Hn].
    rewrite apply_events_cons.
    set (r1 := deliver ToString (callbacks clk) ev r).
    assert (Hr1 : streamingContent (app r1) = fullResponse (session r1)).
    { subst r1. destruct ev; try discriminate Hev; try reflexivity. exact Hr. }
    destruct (IH r1 Hn Hr1) as (H1 & H2 & H3).
    rewrite H1, H2, H3. subst r1.
    destruct ev; try discriminate Hev; simpl;
      rewrite ?app_nil_r, <- ?app_assoc; auto.
Qed.

(** The whole state while the stream of a session goes on. *)
Lemma streaming_run clk clk' message explicit st st' o s evs :
  sendMessage clk message explicit st = (st', o, Some s) ->
  forallb nonterminal evs = true ->
  apply_events ToString clk' evs {| session := s; app := st'; out := o |}
  = {| session := {| convId := convId s;
                     fullResponse := streamed (text []) evs |};
       app := {| conversations := conversations st;
                 activeConvId := activeConvId st;
                 messages := messages st ++ [userMsg clk (convId s) message];
                 isLoading := true;
                 streamingContent := streamed (text []) evs;
                 liveTrace := traces evs;
                 activeConvRef := activeConvRef st |};
       out := [PostChat (convId s) message] |}.
Proof.
  intros Hs Hn.
  apply sendMessage_accepted in Hs as (c & _ & _ & _ & -> & -> & ->).
  set (r0 := {| session := {| convId := c; fullResponse := text [] |};
                app := _; out := _ |}).
  destruct (nonterminal_frame ToString clk' evs r0 Hn) as (F1 & F2 & F3 & F4 & F5 & F6).
  destruct (nonterminal_view clk' evs r0 Hn eq_refl) as (V1 & V2 & V3).
  pose proof (convId_kept ToString clk' evs r0) as Hc.
  destruct (apply_events ToString clk' evs r0) as [[c' f'] [cs a ms l sc lt ar] o'].
  simpl in *. subst. reflexivity.
Qed.



(** X6. When the stream brings trace, token and full-response events and
    then [done], the text and the trace of the stream are dropped, the
    component stops loading, and the session asks for the messages of
    its conversation, for the conversations and for the health of the
    backend, in that order; the message of the user stays in the list
    until the answer to the first request replaces the whole list. *)
Theorem done_reconciles
  clk clk' message explicit st st' o s chunks evs (msgs : list Message) :
  sendMessage clk message explicit st = (st', o, Some s) ->
  body_events JSON_parse chunks = evs ++ [EvDone] ->
  forallb nonterminal evs = true ->
  let r := exchange JSON_parse ToString clk clk' message explicit
             (Body chunks EndOfStream) st in
  isLoading (fst r) = false
  /\ streamingContent (fst r) = text []
  /\ liveTrace (fst r) = []
  /\ messages (fst r) = messages st ++ [userMsg clk (convId s) message]
  /\ snd r = [PostChat (convId s) message; GetMessages (convId s);
              ListConversations; GetHealth]
  /\ messages (fst (loadMessages_settled (Some msgs) (fst r))) = msgs
  /\ fst (loadMessages_settled None (fst r)) = fst r.
Proof.
  intros Hs He Hn r. subst r.
  rewrite (exchange_body _ clk' _ _ _ chunks EndOfStream Hs).
  cbv zeta. rewrite He, apply_events_app.
  rewrite (streaming_run _ clk' _ _ _ _ Hs Hn).
  repeat split; reflexivity.
Qed.


End WithPlatform.



Lemma done_reconciles_witness :
  let r := exchange Demo.parse Sample.to_text Sample.clk0 Sample.clk1
             Demo.question None (Body Demo.body_done EndOfStream) Sample.idle in
  isLoading (fst r) = false
  /\ snd r = [PostChat (lit "a") Demo.question; GetMessages (lit "a");
              ListConversations; GetHealth].
Proof.
  cbv zeta.
  destruct (done_reconciles Demo.parse Sample.to_text
              Sample.clk0 Sample.clk1 Demo.question None Sample.idle
              Demo.body_done
              [EvTrace (Sample.step_event "orchestrator");
               EvToken (Some (JString (lit "Hi")));
               EvToken (Some (JString (lit "Hi")))]
              [] eq_refl eq_refl eq_refl)
    as (Hl & _ & _ & _ & Ho & _).
  split; [exact Hl | exact Ho].
Defined.


End LifecycleFacts.

(** ** Uploads, and acting with no conversation selected *)

Module UploadFacts.
Import Upload SessionFacts.

Local Open Scope handler_scope.

Lemma target_id explicit st c :
  target explicit st = Some c -> no_id (target explicit st) = false -> c <> [].
Proof. intros ->. destruct c; [discriminate | discriminate]. Qed.

(** An upload that has ended has cleared [isLoading]. *)
Lemma upload_clears_loading
  now clk file_name (c : jsstring) res reload st :
  c <> [] ->
  isLoading (fst (upload now clk file_name (Some c) res reload st)) = false.
Proof.
  intros Hc. unfold upload, uploadPDF. simpl target.
  destruct c as [|x c]; [contradiction|]. simpl no_id. cbv iota.
  destruct res as [trace|err]; [destruct reload as [msgs|]|]; reflexivity.
Qed.

(** X8. However an upload ends, by a result or by a throw and whether or
    not the reload of the messages succeeds, the component is left not
    loading and with an empty trace; the conversations, the selection
    and the streamed text are as before.  A throw adds one message of
    the assistant with the text of the failure; after a result the
    message list is the reloaded one, or the old one when the reload
    failed. *)
Theorem upload_always_ends_idle
  now clk file_name explicit (c : jsstring) res reload st :
  target explicit st = Some c ->
  c <> [] ->
  let r := upload now clk file_name explicit res reload st in
  isLoading (fst r) = false
  /\ liveTrace (fst r) = []
  /\ conversations (fst r) = conversations st
  /\ activeConvId (fst r) = activeConvId st
  /\ streamingContent (fst r) = streamingContent st
  /\ messages (fst r)
     = match res, reload with
       | UploadThrew err, _ => messages st ++ [uploadErrMsg clk c err]
       | Uploaded _, Some msgs => msgs
       | Uploaded _, None => messages st
       end.
Proof.
  intros Ht Hc r. subst r. unfold upload, uploadPDF. rewrite Ht.
  destruct c as [|x c]; [contradiction|]. simpl no_id. cbv iota.
  destruct res as [trace|err]; [destruct reload as [msgs|]|];
    repeat split; reflexivity.
Qed.

Lemma upload_always_ends_idle_witness :
  let r := upload 1700000003000 Sample.clk1 (lit "paper.pdf") None
             (UploadThrew (lit "Error: Only PDF files are supported"))
             None Sample.idle in
  isLoading (fst r) = false
  /\ map content (messages (fst r))
     = [cross_mark :: lit " Upload failed: Error: Only PDF files are supported"].
Proof.
  cbv zeta.
  destruct (upload_always_ends_idle 1700000003000 Sample.clk1 (lit "paper.pdf")
              None (UploadThrew (lit "Error: Only PDF files are supported"))
              None Sample.idle (c := lit "a") eq_refl)
    as (Hl & _ & _ & _ & _ & Hm); [discriminate|].
  split; [exact Hl | rewrite Hm; reflexivity].
Defined.

Section WithToString.

Variable ToString : JsAny -> jsstring.

(** X9. [uploadPDF] does not look at [isLoading].  Started while the
    stream of a chat session goes on, it puts its own step in place of
    the trace of the session, and when it ends it clears [isLoading]
    although the session has not ended: from then on a submit is
    accepted while the first session still streams. *)
Theorem upload_unlocks_submit
  clk clk' clk2 clk3 now message message' file_name explicit
  (c2 c3 : jsstring) st st' o s evs res reload :
  sendMessage clk message explicit st = (st', o, Some s) ->
  forallb nonterminal evs = true ->
  c2 <> [] -> c3 <> [] ->
  let r := apply_events ToString clk' evs {| session := s; app := st'; out := o |} in
  let started := uploadPDF now file_name (Some c2) (app r) in
  let ended := upload now clk2 file_name (Some c2) res reload (app r) in
  isLoading (app r) = true
  /\ snd started = Some (PostUpload c2 file_name)
  /\ liveTrace (fst started) = [upload_step now file_name]
  /\ isLoading (fst ended) = false
  /\ accepted (sendMessage clk3 message' (Some c3) (fst ended)) = true.
Proof.
  intros Hs Hn H2 H3 r started ended.
  pose proof (busy_while_streaming ToString clk clk' message explicit st evs Hs Hn)
    as Hb. fold r in Hb.
  pose proof (@upload_clears_loading now clk2 file_name c2 res reload
                (app r) H2) as Hl.
  fold ended in Hl.
  split; [exact Hb|].
  destruct c2 as [|x2 c2]; [contradiction|].
  destruct c3 as [|x3 c3]; [contradiction|].
  repeat split; try reflexivity; try exact Hl.
  unfold sendMessage, sendMessage_seeing. simpl target. simpl no_id.
  rewrite Hl. reflexivity.
Qed.

End WithToString.

Lemma upload_unlocks_submit_witness :
  let ended := upload 1700000003000 Sample.clk1 (lit "paper.pdf")
                 (Some (lit "b")) (Uploaded None) None (app Sample.streaming) in
  isLoading (app Sample.streaming) = true
  /\ accepted (sendMessage Sample.clk1 (lit "And proteins?") (Some (lit "b"))
                 (fst ended)) = true.
Proof.
  cbv zeta.
  destruct (upload_unlocks_submit Sample.to_text
              Sample.clk0 Sample.clk1 Sample.clk1 Sample.clk1 1700000003000
              Demo.question (lit "And proteins?") (lit "paper.pdf") None
              (c2 := lit "b") (c3 := lit "b") Sample.idle
              [EvTrace (Sample.step_event "orchestrator");
               EvToken (Some (JString (lit "Qu")))]
              (Uploaded None) None eq_refl eq_refl)
    as (Hb & _ & _ & _ & Ha); try discriminate.
  split; [exact Hb | exact Ha].
Defined.

(** X10. A message sent while no conversation is selected, from a
    render that saw no loading, goes to a conversation made for it: when
    the backend has made the conversation, whatever the state of the
    component is by then, the conversation is put first in the list and
    selected, the message list is the message of the user alone, the
    component is loading and the chat request carries the new id.  When
    the backend fails to make the conversation, nothing changes and
    nothing is sent but a line on the console. *)
Theorem send_with_no_conversation clk message (conv : Conversation) st :
  id conv <> [] ->
  let r := handleSendNoConv_settled false clk message (Some conv) st in
  conversations (fst (fst r)) = conv :: conversations st
  /\ activeConvId (fst (fst r)) = Some (id conv)
  /\ activeConvRef (fst (fst r)) = Some (id conv)
  /\ messages (fst (fst r)) = [userMsg clk (id conv) message]
  /\ isLoading (fst (fst r)) = true
  /\ snd (fst r) = [PostChat (id conv) message]
  /\ snd r = Some {| convId := id conv; fullResponse := text [] |}
  /\ (forall seen,
        handleSendNoConv_settled seen clk message None st
        = (st, [ConsoleError (lit "Failed to create conversation:")], None)).
Proof.
  intros Hid r. subst r.
  unfold handleSendNoConv_settled, newConversation_settled, sendMessage_seeing.
  destruct (id conv) as [|x c] eqn:E; [contradiction|].
  simpl. repeat split; reflexivity.
Qed.

(** The second of two messages sent with no conversation selected: the
    first has started its session and the component is loading when the
    conversation of the second is made. *)
Lemma send_with_no_conversation_witness :
  let st1 := fst (fst (handleSendNoConv_settled false Sample.clk0 Demo.question
                         (Some Sample.conv_a) App.initial)) in
  let r := handleSendNoConv_settled false Sample.clk1 (lit "And proteins?")
             (Some Sample.conv_b) st1 in
  isLoading st1 = true
  /\ map id (conversations (fst (fst r))) = [lit "b"; lit "a"]
  /\ snd (fst r) = [PostChat (lit "b") (lit "And proteins?")].
Proof.
  cbv zeta. split; [reflexivity|].
  destruct (@send_with_no_conversation Sample.clk1 (lit "And proteins?")
              Sample.conv_b
              (fst (fst (handleSendNoConv_settled false Sample.clk0 Demo.question
                           (Some Sample.conv_a) App.initial))))
    as (Hc & _ & _ & _ & _ & Ho & _);
    [discriminate |].
  split; [rewrite Hc; reflexivity | exact Ho].
Defined.

(** X11. A message sent with no conversation selected, from a render
    that saw the component loading, is lost, whatever the state of the
    component is when the backend has made the conversation: the
    conversation is put first and selected, and the message list, the
    streamed text and the trace are emptied, but no message is added, no
    chat request is sent and [isLoading] is left as it is. *)
Theorem send_with_no_conversation_while_loading
  clk message (conv : Conversation) st :
  let r := handleSendNoConv_settled true clk message (Some conv) st in
  conversations (fst (fst r)) = conv :: conversations st
  /\ activeConvId (fst (fst r)) = Some (id conv)
  /\ messages (fst (fst r)) = []
  /\ streamingContent (fst (fst r)) = text []
  /\ liveTrace (fst (fst r)) = []
  /\ isLoading (fst (fst r)) = isLoading st
  /\ snd (fst r) = []
  /\ snd r = None.
Proof.
  intros r. subst r.
  unfold handleSendNoConv_settled, newConversation_settled.
  cbn [fst snd]. simpl.
  destruct (id conv) as [|x c] eqn:E; simpl.
  - repeat split; reflexivity.
  - repeat split; reflexivity.
Qed.

(** Both conversations are deleted while the answer in the first
    streams: no conversation is selected, the component is loading, and
    a message sent now is lost. *)
Lemma send_with_no_conversation_while_loading_witness :
  let st := fst (deleteConversation_settled (lit "b") true
              (fst (deleteConversation_settled (lit "a") true
                      (app Sample.streaming)))) in
  let r := handleSendNoConv_settled (isLoading st) Sample.clk1
             (lit "And proteins?") (Some Sample.conv_b) st in
  activeConvId st = None
  /\ isLoading st = true
  /\ map id (conversations (fst (fst r))) = [lit "b"]
  /\ snd (fst r) = []
  /\ snd r = None.
Proof.
  cbv zeta. split; [reflexivity | split; [reflexivity|]].
  destruct (send_with_no_conversation_while_loading Sample.clk1
              (lit "And proteins?") Sample.conv_b
              (fst (deleteConversation_settled (lit "b") true
                 (fst (deleteConversation_settled (lit "a") true
                         (app Sample.streaming))))))
    as (Hc & _ & _ & _ & _ & _ & Ho & Hs).
  split; [exact (f_equal (map id) Hc) | split; [exact Ho | exact Hs]].
Defined.

End UploadFacts.

(** ** Trimming, the input bar and the side bar *)

Module InputFacts.

Lemma trimStart_spec (s : jsstring) :
  exists pre,
    s = pre ++ trimStart s
    /\ forallb is_space pre = true
    /\ starts_clean (trimStart s).
Proof.
  induction s as [|c s (pre & E & Hp & Hc)].
  - exists []. repeat split.
  - simpl. destruct (is_space c) eqn:Ec.
    + exists (c :: pre). simpl. rewrite Ec, Hp. rewrite <- E. auto.
    + exists []. simpl. auto.
Qed.

Lemma trimStart_clean (s : jsstring) : starts_clean s -> trimStart s = s.
Proof. destruct s as [|c s]; simpl; [reflexivity | intros ->; reflexivity]. Qed.

Lemma forallb_rev {A} (f : A -> bool) (l : list A) :
  forallb f (rev l) = forallb f l.
Proof.
  induction l as [|a l IH]; [reflexivity|].
  simpl. rewrite forallb_app, IH. simpl. rewrite andb_true_r. apply andb_comm.
Qed.

Lemma trimEnd_spec (t : jsstring) :
  exists post,
    t = trimEnd t ++ post
    /\ forallb is_space post = true
    /\ starts_clean (rev (trimEnd t)).
Proof.
  unfold trimEnd.
  destruct (trimStart_spec (rev t)) as (pre & E & Hp & Hc).
  exists (rev pre). rewrite rev_involutive. repeat split.
  - rewrite <- rev_app_distr, <- E, rev_involutive. reflexivity.
  - rewrite forallb_rev. exact Hp.
  - exact Hc.
Qed.

Lemma starts_clean_prefix (u v : jsstring) :
  starts_clean (u ++ v) -> u <> [] -> starts_clean u.
Proof. destruct u; [contradiction | simpl; auto]. Qed.

(** What [trim] returns: the text without some white space at its two
    ends, with no white space left at either end. *)
Lemma trim_spec (s : jsstring) :
  exists pre post,
    s = pre ++ trim s ++ post
    /\ forallb is_space pre = true
    /\ forallb is_space post = true
    /\ starts_clean (trim s)
    /\ starts_clean (rev (trim s)).
Proof.
  unfold trim.
  destruct (trimStart_spec s) as (pre & E & Hp & Hc).
  destruct (trimEnd_spec (trimStart s)) as (post & E' & Hq & Hc').
  exists pre, post. repeat split; auto.
  - rewrite <- E'. exact E.
  - destruct (trimEnd (trimStart s)) as [|c u] eqn:Eu; [exact I|].
    rewrite E' in Hc. exact Hc.
Qed.

Lemma trim_idempotent (s : jsstring) : trim (trim s) = trim s.
Proof.
  destruct (trim_spec s) as (_ & _ & _ & _ & _ & Hc & Hc').
  unfold trim at 1. rewrite (trimStart_clean _ Hc).
  unfold trimEnd. rewrite (trimStart_clean _ Hc'). apply rev_involutive.
Qed.

Lemma last_rev_hd (s : jsstring) (d : N) : last s d = hd d (rev s).
Proof.
  induction s as [|c s IH] using rev_ind; [reflexivity|].
  rewrite last_last, rev_app_distr. reflexivity.
Qed.

Lemma starts_clean_hd (s : jsstring) :
  s <> [] -> starts_clean s -> is_space (hd 0%N s) = false.
Proof. destruct s; [contradiction | simpl; auto]. Qed.

(** X12. What the input bar sends is the text of the box without the
    white space at its two ends and is never empty: a message goes out
    only when no file is pending, it neither begins nor ends with white
    space, the box held it between white space alone, and the box is
    emptied.  Sending the message again through [trim] changes
    nothing. *)
Theorem sent_text_is_trimmed (st st' : InputBar.t) (m : jsstring) :
  InputBar.handleSend st = (st', Some (InputBar.onSend m)) ->
  InputBar.pendingFile st = None
  /\ m = trim (InputBar.text st)
  /\ m <> []
  /\ is_space (hd 0%N m) = false
  /\ is_space (last m 0%N) = false
  /\ (exists pre post,
        InputBar.text st = pre ++ m ++ post
        /\ forallb is_space pre = true /\ forallb is_space post = true)
  /\ trim m = m
  /\ InputBar.text st' = [].
Proof.
  unfold InputBar.handleSend.
  destruct (InputBar.pendingFile st) as [f|]; [discriminate|].
  destruct (trim (InputBar.text st)) as [|c u] eqn:E; [discriminate|].
  simpl. intros H; injection H as <- <-.
  destruct (trim_spec (InputBar.text st)) as (pre & post & Es & Hp & Hq & Hc & Hc').
  rewrite E in *.
  repeat split; auto.
  - discriminate.
  - rewrite last_rev_hd. apply starts_clean_hd; [|exact Hc'].
    intros H. apply (f_equal (@rev N)) in H. rewrite rev_involutive in H.
    discriminate H.
  - exists pre, post. auto.
  - rewrite <- E. apply trim_idempotent.
Qed.

Lemma sent_text_is_trimmed_witness :
  InputBar.handleSend
    {| InputBar.text := (32 :: 10 :: lit "What is CRISPR?  ")%N;
       InputBar.pendingFile := None |}
  = ({| InputBar.text := []; InputBar.pendingFile := None |},
     Some (InputBar.onSend (lit "What is CRISPR?")))
  /\ trim (lit "What is CRISPR?") = lit "What is CRISPR?".
Proof.
  split; [reflexivity|].
  destruct (sent_text_is_trimmed
              {| InputBar.text := (32 :: 10 :: lit "What is CRISPR?  ")%N;
                 InputBar.pendingFile := None |}
              (m := lit "What is CRISPR?") eq_refl)
    as (_ & _ & _ & _ & _ & _ & H & _).
  exact H.
Defined.

End InputFacts.

(** ** Renaming *)

Module RenameFacts.
Import InputFacts.

Lemma rename_map now id0 title0 st :
  conversations (fst (renameConversation_settled now id0 title0 true st))
  = map (fun c =>
           if JsString.eqb (id c) id0
           then {| id := id c; title := title0;
                   created_at := created_at c; updated_at := seconds now |}
           else c) (conversations st).
Proof. reflexivity. Qed.

(** X13. A rename touches the conversations with the given id and
    nothing else: the ids of the list and their order are as before,
    every other conversation is as it was, a conversation with the id
    gets the new title and the time of the rename and keeps its time of
    creation, and when the list holds no conversation with the id it
    does not change; the selection and the messages are as before and
    nothing is requested.  When the backend refuses the rename, the
    state is as before. *)
Theorem rename_touches_only_its_conversation now (id0 title0 : jsstring) st :
  let r := renameConversation_settled now id0 title0 true st in
  map id (conversations (fst r)) = map id (conversations st)
  /\ (forall c, In c (conversations st) -> id c <> id0 ->
                In c (conversations (fst r)))
  /\ (forall c', In c' (conversations (fst r)) -> id c' = id0 ->
        title c' = title0 /\ updated_at c' = seconds now
        /\ exists c, In c (conversations st) /\ id c = id0
                     /\ created_at c' = created_at c)
  /\ (~ In id0 (map id (conversations st)) ->
      conversations (fst r) = conversations st)
  /\ activeConvId (fst r) = activeConvId st
  /\ messages (fst r) = messages st
  /\ isLoading (fst r) = isLoading st
  /\ snd r = []
  /\ fst (renameConversation_settled now id0 title0 false st) = st.
Proof.
  cbv zeta. rewrite rename_map.
  repeat split; try reflexivity.
  - rewrite map_map. apply map_ext. intros c.
    destruct (JsString.eqb (id c) id0); reflexivity.
  - intros c Hin Hne. apply in_map_iff. exists c. split; [|exact Hin].
    apply JsStringFacts.eqb_neq in Hne. rewrite Hne. reflexivity.
  - apply in_map_iff in H as (c & <- & Hin).
    destruct (JsString.eqb (id c) id0) eqn:E; [reflexivity|].
    apply JsStringFacts.eqb_neq in E. contradiction.
  - apply in_map_iff in H as (c & <- & Hin).
    destruct (JsString.eqb (id c) id0) eqn:E; [reflexivity|].
    apply JsStringFacts.eqb_neq in E. contradiction.
  - apply in_map_iff in H as (c & <- & Hin).
    destruct (JsString.eqb (id c) id0) eqn:E.
    + exists c. apply JsStringFacts.eqb_eq in E. auto.
    + apply JsStringFacts.eqb_neq in E. contradiction.
  - intros Hno. rewrite <- (map_id (conversations st)) at 2.
    apply map_ext_in. intros c Hin.
    destruct (JsString.eqb (id c) id0) eqn:E; [|reflexivity].
    apply JsStringFacts.eqb_eq in E. exfalso. apply Hno.
    apply in_map_iff. exists c. auto.
Qed.

(** X14. A title typed in the side bar reaches the store trimmed, and
    never blank.  Committing the edit of a conversation always leaves
    the edit mode; it asks for a rename only when the title is more than
    white space, with the title without the white space at its ends, and
    once the backend has accepted it the conversation is in the list
    under that title, at the place it had. *)
Theorem committed_title_reaches_store
  (conv : Conversation) (typed : jsstring) now st :
  In conv (conversations st) ->
  id conv <> [] ->
  trim typed <> [] ->
  let edit := {| Sidebar.editingId := Some (id conv); Sidebar.editTitle := typed |} in
  let r := renameConversation_settled now (id conv) (trim typed) true st in
  Sidebar.commitRename edit
    = (Sidebar.idle, Some (Sidebar.onRename (id conv) (trim typed)))
  /\ starts_clean (trim typed) /\ starts_clean (rev (trim typed))
  /\ In {| id := id conv; title := trim typed;
           created_at := created_at conv; updated_at := seconds now |}
        (conversations (fst r))
  /\ map id (conversations (fst r)) = map id (conversations st).
Proof.
  intros Hin Hid Ht edit r. subst edit r.
  destruct (trim_spec typed) as (_ & _ & _ & _ & _ & Hc & Hc').
  split; [|split; [exact Hc|split; [exact Hc'|split]]].
  - unfold Sidebar.commitRename. simpl.
    destruct (id conv); [contradiction|].
    destruct (trim typed); [contradiction|]. reflexivity.
  - rewrite rename_map. apply in_map_iff. exists conv.
    rewrite JsStringFacts.eqb_refl. auto.
  - rewrite rename_map, map_map. apply map_ext. intros c.
    destruct (JsString.eqb (id c) (id conv)); reflexivity.
Qed.

Lemma committed_title_reaches_store_witness :
  let r := renameConversation_settled 300000 (lit "b") (lit "Protein folding")
             true Sample.idle in
  Sidebar.commitRename
    {| Sidebar.editingId := Some (lit "b");
       Sidebar.editTitle := (32 :: lit "Protein folding ")%N |}
  = (Sidebar.idle, Some (Sidebar.onRename (lit "b") (lit "Protein folding")))
  /\ map title (conversations (fst r)) = [lit "Quantum"; lit "Protein folding"].
Proof.
  cbv zeta.
  destruct (committed_title_reaches_store Sample.conv_b
              (32 :: lit "Protein folding ")%N 300000 Sample.idle)
    as (H & _); [right; left; reflexivity | discriminate | discriminate |].
  split; [exact H | reflexivity].
Defined.

(** A commit with a blank title asks for nothing. *)
Example blank_title_is_not_committed :
  Sidebar.commitRename
    {| Sidebar.editingId := Some (lit "b"); Sidebar.editTitle := [32; 9; 32]%N |}
  = (Sidebar.idle, None).
Proof. reflexivity. Qed.

End RenameFacts.

(** ** The search *)

Module SearchFacts.
Import SearchModal.

Lemma startsWith_spec (q s : jsstring) :
  startsWith q s = true <-> exists post, s = q ++ post.
Proof.
  revert s; induction q as [|x q IH]; intros s; simpl.
  - split; [intros _; exists s; reflexivity | reflexivity].
  - destruct s as [|y s].
    + split; [discriminate | intros (post & H); discriminate H].
    + rewrite andb_true_iff, N.eqb_eq, IH. split.
      * intros (-> & post & ->). exists post. reflexivity.
      * intros (post & H). injection H as -> ->. split; eauto.
Qed.

(** [includes] finds the occurrences of the needle. *)
Lemma includes_spec (s q : jsstring) :
  includes s q = true <-> exists pre post, s = pre ++ q ++ post.
Proof.
  induction s as [|c s IH]; simpl.
  - rewrite orb_false_r, startsWith_spec. split.
    + intros (post & H). exists [], post. exact H.
    + intros (pre & post & H). destruct pre; [|discriminate H].
      exists post. exact H.
  - rewrite orb_true_iff, startsWith_spec, IH. split.
    + intros [(post & H) | (pre & post & H)].
      * exists [], post. exact H.
      * exists (c :: pre), post. rewrite H. reflexivity.
    + intros (pre & post & H). destruct pre as [|c' pre].
      * left. exists post. exact H.
      * right. injection H as _ H. exists pre, post. exact H.
Qed.

Lemma filter_sorted (f : Conversation -> bool) (l : list Conversation) :
  sorted_desc l = true -> sorted_desc (filter f l) = true.
Proof.
  induction l as [|c l IH]; intros H; [reflexivity|].
  apply StoreFacts.sorted_desc_cons in H as [Hs Hall].
  simpl. destruct (f c); [|auto].
  apply StoreFacts.sorted_desc_intro; [auto|].
  apply Forall_forall; intros d Hd. apply filter_In in Hd as [Hd _].
  rewrite Forall_forall in Hall; auto.
Qed.

Section WithLowerCase.

Variable toLowerCase : jsstring -> jsstring.

(** X15. The search keeps the order of the store.  When the store is in
    descending order of [updated_at], so are the results; the results
    are conversations of the store; a query of white space alone gives
    the whole store, and any other query gives the conversations whose
    title in lower case holds the query in lower case, white space
    included, somewhere. *)
Theorem search_keeps_store_order (query : jsstring) (convs : list Conversation) :
  sorted_desc convs = true ->
  sorted_desc (filtered toLowerCase query convs) = true
  /\ incl (filtered toLowerCase query convs) convs
  /\ (forall c,
        In c (filtered toLowerCase query convs)
        <-> In c convs
            /\ (trim query = []
                \/ exists pre post,
                     toLowerCase (title c) = pre ++ toLowerCase query ++ post)).
Proof.
  intros Hs. unfold filtered, blank.
  destruct (trim query) as [|x t] eqn:E; simpl.
  - split; [exact Hs|]. split; [apply incl_refl|].
    intros c. split; [auto | intros [H _]; exact H].
  - split; [apply filter_sorted; exact Hs|].
    split; [apply incl_filter|].
    intros c. rewrite filter_In, includes_spec. split.
    + intros [H1 H2]. auto.
    + intros [H1 [H2 | H2]]; [discriminate H2 | auto].
Qed.

(** X17. Highlighting never changes a title: the parts it renders are
    cuts of the title and put together they are the title, whatever the
    query and whatever lower case does to the lengths; the marked part
    is no longer than the query without the white space at its ends. *)
Theorem highlight_keeps_text (query text : jsstring) :
  match highlight toLowerCase query text with
  | Plain t => t = text
  | Marked before mark after =>
      before ++ mark ++ after = text
      /\ (List.length mark <= List.length (trim query))%nat
      /\ exists idx,
           indexOf (toLowerCase text) (toLowerCase (trim query)) = Some idx
           /\ before = firstn idx text
  end.
Proof.
  unfold highlight. destruct (blank query); [reflexivity|].
  destruct (indexOf (toLowerCase text) (toLowerCase (trim query))) as [idx|];
    [|reflexivity].
  split; [|split].
  - rewrite Nat.add_comm, <- skipn_skipn.
    rewrite firstn_skipn. apply firstn_skipn.
  - apply firstn_le_length.
  - exists idx. auto.
Qed.

End WithLowerCase.

Lemma at_index_In (l : list Conversation) (i : Z) (c : Conversation) :
  at_index l i = Some c -> In c l.
Proof.
  unfold at_index. destruct (i <? 0)%Z; [discriminate|]. apply nth_error_In.
Qed.

Lemma at_index_valid (l : list Conversation) (i : Z) :
  (0 <= i < Z.of_nat (List.length l))%Z -> exists c, at_index l i = Some c.
Proof.
  intros [H0 H1]. unfold at_index.
  destruct (i <? 0)%Z eqn:E; [apply Z.ltb_lt in E; lia|].
  destruct (nth_error l (Z.to_nat i)) as [c|] eqn:En; [eauto|].
  apply nth_error_None in En. lia.
Qed.

(** X16. The arrow keys keep the selection of the search inside the
    results.  When there are results and the selected index is one of
    theirs, an arrow key moves it by one place at most and leaves it an
    index of the results, without wrapping around at either end, and
    Enter selects the conversation at the index, which is one of the
    results, and never throws. *)
Theorem search_selection_stays_in_results
  (results : list Conversation) (selectedIdx : Z) :
  (0 <= selectedIdx < Z.of_nat (List.length results))%Z ->
  (exists i, handleKeyDown (lit "ArrowDown") results selectedIdx = Index i
             /\ (0 <= i < Z.of_nat (List.length results))%Z
             /\ (selectedIdx <= i <= selectedIdx + 1)%Z)
  /\ (exists i, handleKeyDown (lit "ArrowUp") results selectedIdx = Index i
                /\ (0 <= i < Z.of_nat (List.length results))%Z
                /\ (selectedIdx - 1 <= i <= selectedIdx)%Z)
  /\ (exists c, handleKeyDown (lit "Enter") results selectedIdx = Select (id c)
                /\ at_index results selectedIdx = Some c
                /\ In c results).
Proof.
  intros H. split; [|split].
  - eexists. split; [reflexivity|]. lia.
  - eexists. split; [reflexivity|]. lia.
  - destruct (@at_index_valid results selectedIdx H) as (c & Hc).
    exists c. split; [|split; [exact Hc | eapply at_index_In; eauto]].
    unfold handleKeyDown. simpl.
    assert (Hlen : (0 <? Z.of_nat (List.length results))%Z = true)
      by (apply Z.ltb_lt; lia).
    rewrite Hlen, Hc. reflexivity.
Qed.

Lemma search_keeps_store_order_witness :
  filtered Demo.lower (lit "QUANT") [Sample.conv_a; Sample.conv_b] = [Sample.conv_a]
  /\ sorted_desc (filtered Demo.lower (lit "QUANT") [Sample.conv_a; Sample.conv_b])
     = true.
Proof.
  split; [reflexivity|].
  destruct (@search_keeps_store_order Demo.lower (lit "QUANT")
              [Sample.conv_a; Sample.conv_b] eq_refl) as (H & _).
  exact H.
Defined.

Lemma search_selection_stays_in_results_witness :
  handleKeyDown (lit "ArrowDown") [Sample.conv_a; Sample.conv_b] 1 = Index 1
  /\ exists c, handleKeyDown (lit "Enter") [Sample.conv_a; Sample.conv_b] 1
                = Select (id c)
               /\ In c [Sample.conv_a; Sample.conv_b].
Proof.
  split; [reflexivity|].
  destruct (@search_selection_stays_in_results [Sample.conv_a; Sample.conv_b] 1)
    as (_ & _ & c & H1 & _ & H2); [simpl; lia|].
  exists c. split; [exact H1 | exact H2].
Defined.

(** A query with white space in front filters by the query as typed but
    marks the query without the white space. *)
Example query_with_leading_space :
  filtered Demo.lower (32%N :: lit "quantum") [Sample.conv_a; Sample.conv_b] = []
  /\ highlight Demo.lower (32%N :: lit "quantum") (lit "Quantum")
     = Marked [] (lit "Quantum") [].
Proof. split; reflexivity. Qed.

(** With no results the down arrow leaves the range and Enter does
    nothing. *)
Example arrow_down_without_results :
  handleKeyDown (lit "ArrowDown") [] 0 = Index (-1)
  /\ handleKeyDown (lit "Enter") [] (-1) = Index (-1)
  /\ handleKeyDown (lit "ArrowUp") [] (-1) = Index 0.
Proof. repeat split; reflexivity. Qed.

End SearchFacts.

(** ** What is shown *)

Module ViewFacts.
Import View Stream SessionFacts LifecycleFacts.

Lemma existsb_app_false {A} (f : A -> bool) (l l' : list A) :
  existsb f l = false -> existsb f l' = false -> existsb f (l ++ l') = false.
Proof. intros H H'. rewrite existsb_app, H, H'. reflexivity. Qed.

Section WithPlatform.

Variable JSON_parse : jsstring -> option JsonValue.
Variable ToString : JsAny -> jsstring.

Lemma dispatch_no_null (data : JsonValue) :
  is_null data = false -> no_null_trace (dispatch data).
Proof.
  intros H. unfold dispatch.
  repeat match goal with |- context [if ?b then _ else _] => destruct b end;
    simpl; auto.
Qed.

Lemma classify_no_null (line : jsstring) (ev : Event) :
  classify JSON_parse line = Some ev -> no_null_trace ev.
Proof.
  unfold classify. destruct (negb _); [discriminate|].
  destruct (JSON_parse _) as [data|]; [|discriminate].
  destruct data; try discriminate;
    intros H; injection H as <-; apply dispatch_no_null; reflexivity.
Qed.

Lemma classify_all_no_null (lines : list jsstring) :
  Forall no_null_trace (classify_all JSON_parse lines).
Proof.
  induction lines as [|line lines IH]; [constructor|].
  unfold classify_all; cbn [flat_map]. fold (classify_all JSON_parse lines).
  destruct (classify JSON_parse line) as [ev|] eqn:E; [|exact IH].
  constructor; [eapply classify_no_null; eauto | exact IH].
Qed.

Lemma apply_events_no_null clk (evs : list Event) :
  Forall no_null_trace evs ->
  forall r,
  existsb is_null (liveTrace (app r)) = false ->
  existsb is_null (liveTrace (app (apply_events ToString clk evs r))) = false.
Proof.
  induction 1 as [|ev evs Hev _ IH]; intros r Hr; [exact Hr|].
  rewrite apply_events_cons. apply IH.
  destruct ev; simpl in *; try reflexivity; try exact Hr.
  apply existsb_app_false; [exact Hr|]. simpl. rewrite Hev. reflexivity.
Qed.

(** X18. The filter of [AgentTrace] never throws on the trace that a
    stream builds.  Whatever the frames of a body are, the live trace
    holds no [null], so that [traceEvents] reads the [event_type] of
    every event; it keeps the events whose [event_type] is neither
    [stream_token] nor [stream_end], in the order of arrival. *)
Theorem live_trace_filter_never_throws
  clk (chunks : list (list Byte.byte)) (ending : Ending) (r : Run) :
  existsb is_null (liveTrace (app r)) = false ->
  let r' := final (sendChatMessage JSON_parse ToString (callbacks clk)
                     (Body chunks ending) r) in
  existsb is_null (liveTrace (app r')) = false
  /\ traceEvents (liveTrace (app r'))
     = Some (filter shown_step (liveTrace (app r')))
  /\ Forall (fun e => prop (lit "event_type") e <> Some (JString (lit "stream_token"))
                      /\ prop (lit "event_type") e <> Some (JString (lit "stream_end")))
            (filter shown_step (liveTrace (app r'))).
Proof.
  intros Hr r'.
  assert (Hn : existsb is_null (liveTrace (app r')) = false).
  { subst r'. rewrite StreamFacts.body_outcome, process_lines_events.
    apply apply_events_no_null; [apply classify_all_no_null | exact Hr]. }
  split; [exact Hn|]. split.
  - unfold traceEvents. rewrite Hn. reflexivity.
  - apply Forall_forall. intros e He. apply filter_In in He as [_ He].
    unfold shown_step in He. apply andb_true_iff in He as [H1 H2].
    apply negb_true_iff in H1, H2.
    split; intros E.
    + rewrite E in H1. discriminate H1.
    + rewrite E in H2. discriminate H2.
Qed.


End WithPlatform.

Lemma live_trace_filter_never_throws_witness :
  let r := final (sendChatMessage Demo.parse Sample.to_text (callbacks Sample.clk1)
                    (Body Demo.body_open EndOfStream) Sample.streaming) in
  traceEvents (liveTrace (app r))
  = Some [Sample.step_event "orchestrator"; Sample.step_event "orchestrator"].
Proof.
  cbv zeta.
  destruct (@live_trace_filter_never_throws Demo.parse Sample.to_text Sample.clk1
              Demo.body_open EndOfStream Sample.streaming eq_refl)
    as (_ & H & _).
  rewrite H. reflexivity.
Defined.


Lemma firstn_le {A} n (l : list A) : (List.length (firstn n l) <= n)%nat.
Proof. rewrite length_firstn. lia. Qed.

Lemma In_firstn {A} n (l : list A) (x : A) : In x (firstn n l) -> In x l.
Proof.
  intros H. rewrite <- (firstn_skipn n l). apply in_or_app. left. exact H.
Qed.

(** X20. The badges under a message are bounded: at most five, each of
    at most forty-one code units, and each either a source of the
    message as it is or the first forty code units of a longer source
    followed by an ellipsis; a message of the user has no badge and
    shows no trace. *)
Theorem badges_are_bounded (m : Message) :
  (List.length (badges m) <= 5)%nat
  /\ Forall (fun b => (List.length b <= 41)%nat) (badges m)
  /\ (forall b, In b (badges m) ->
        exists source, In source (sources m)
          /\ (b = source
              \/ ((40 < List.length source)%nat
                  /\ b = firstn 40 source ++ [ellipsis])))
  /\ (role m = user -> badges m = [] /\ shows_trace m = false).
Proof.
  assert (Hu : role m = user -> isUser m = true).
  { unfold isUser; intros ->; reflexivity. }
  unfold badges, shows_trace.
  destruct (isUser m) eqn:Eu; cbn [negb andb].
  - simpl. repeat split; auto; try lia; try (intros b []).
  - destruct (nonempty (sources m)); cbn [negb andb].
    + split; [rewrite length_map; apply firstn_le|].
      split; [|split].
      * apply Forall_forall. intros b Hb.
        apply in_map_iff in Hb as (s0 & <- & _). unfold badge.
        destruct (40 <? List.length s0)%nat eqn:E.
        -- rewrite length_app, length_firstn.
           change (List.length [ellipsis]) with 1%nat. lia.
        -- apply Nat.ltb_ge in E. lia.
      * intros b Hb. apply in_map_iff in Hb as (s0 & <- & Hs).
        exists s0. split; [eapply In_firstn; eauto|].
        unfold badge. destruct (40 <? List.length s0)%nat eqn:E.
        -- right. apply Nat.ltb_lt in E. auto.
        -- left. reflexivity.
      * intros H. apply Hu in H. discriminate H.
    + simpl. repeat split; auto; try lia; try (intros b []);
        try (intros H; apply Hu in H; discriminate H);
        try (apply Hu in H; discriminate H).
Qed.

End ViewFacts.

(** ** The store while it changes *)

Module StoreChangeFacts.
Import SessionFacts LifecycleFacts StoreFacts.

Local Open Scope handler_scope.

(** X21. Deleting the selected conversation selects the most recent of
    the others.  When the list is in descending order of [updated_at]
    and the selected conversation is deleted, the list stays in order,
    the selection becomes its first conversation, which is at least as
    recent as every other one left, and the messages of that
    conversation are requested, the old messages staying in place until
    the answer comes; when no conversation is left, nothing is selected
    and the message list is emptied. *)
Theorem delete_selects_most_recent_remaining (id0 : jsstring) (st : AppState) :
  sorted_desc (conversations st) = true ->
  activeConvRef st = Some id0 ->
  let r := deleteConversation_settled id0 true st in
  sorted_desc (conversations (fst r)) = true
  /\ conversations (fst r) = without id0 (conversations st)
  /\ match without id0 (conversations st) with
     | first :: rest =>
         activeConvId (fst r) = Some (id first)
         /\ activeConvRef (fst r) = Some (id first)
         /\ Forall (newer first) rest
         /\ snd r = [GetMessages (id first)]
         /\ messages (fst r) = messages st
     | [] =>
         activeConvId (fst r) = None
         /\ activeConvRef (fst r) = None
         /\ snd r = []
         /\ messages (fst r) = []
     end.
Proof.
  intros Hs Href r. subst r.
  split; [apply delete_keeps_sorted; exact Hs|].
  split; [apply delete_conversations|].
  pose proof (without_sorted id0 _ Hs) as Hw.
  unfold deleteConversation_settled.
  assert (E : ref_is id0 (activeConvRef st) = true)
    by (apply ref_is_true; exact Href).
  rewrite E.
  destruct (without id0 (conversations st)) as [|first rest]; simpl.
  - auto.
  - apply sorted_desc_cons in Hw as [_ Hw]. auto.
Qed.

Lemma delete_selects_most_recent_remaining_witness :
  let r := deleteConversation_settled (lit "a") true Sample.idle in
  activeConvId (fst r) = Some (lit "b") /\ snd r = [GetMessages (lit "b")].
Proof.
  cbv zeta.
  destruct (@delete_selects_most_recent_remaining (lit "a") Sample.idle
              eq_refl eq_refl) as (_ & _ & Ha & _ & _ & Ho & _).
  split; [exact Ha | exact Ho].
Defined.

(** X22. A conversation that the backend has made goes to the front of
    the list and becomes the selection, with an empty message list, an
    empty streamed text and an empty trace, and its id is returned; it
    does not change [isLoading], so that a session under way goes on.
    When the list was in order and the new conversation is at least as
    recent as every conversation of the list, the list stays in
    order. *)
Theorem new_conversation_goes_first (conv : Conversation) (st : AppState) :
  sorted_desc (conversations st) = true ->
  Forall (newer conv) (conversations st) ->
  let r := newConversation_settled (Some conv) st in
  conversations (fst (fst r)) = conv :: conversations st
  /\ sorted_desc (conversations (fst (fst r))) = true
  /\ activeConvId (fst (fst r)) = Some (id conv)
  /\ activeConvRef (fst (fst r)) = Some (id conv)
  /\ messages (fst (fst r)) = []
  /\ streamingContent (fst (fst r)) = text []
  /\ liveTrace (fst (fst r)) = []
  /\ isLoading (fst (fst r)) = isLoading st
  /\ snd r = Some (id conv)
  /\ newConversation_settled None st
     = (st, [ConsoleError (lit "Failed to create conversation:")], None).
Proof.
  intros Hs Hall r. subst r.
  pose proof (@create_keeps_sorted conv st Hs Hall) as H.
  repeat split; try reflexivity. exact H.
Qed.

Lemma new_conversation_goes_first_witness :
  let conv := {| id := lit "c"; title := lit "New Conversation";
                 created_at := inject_Z 300; updated_at := inject_Z 300 |} in
  map id (conversations (fst (fst (newConversation_settled (Some conv) Sample.idle))))
  = [lit "c"; lit "a"; lit "b"]
  /\ sorted_desc (conversations
                    (fst (fst (newConversation_settled (Some conv) Sample.idle))))
     = true.
Proof.
  cbv zeta.
  destruct (@new_conversation_goes_first
              {| id := lit "c"; title := lit "New Conversation";
                 created_at := inject_Z 300; updated_at := inject_Z 300 |}
              Sample.idle eq_refl) as (Hc & Hs & _).
  - repeat constructor; unfold newer; simpl; unfold Qle; simpl; lia.
  - split; [rewrite Hc; reflexivity | exact Hs].
Defined.

(** X23. The first load selects the most recent conversation.  When the
    backend sends the list in descending order of [updated_at], the
    list is stored as it comes, the first conversation is selected, no
    conversation of the list is more recent than it, and its messages
    are requested; with an empty list nothing is selected and nothing is
    requested; when the load fails the state is as before. *)
Theorem first_load_selects_most_recent (convs : list Conversation) (st : AppState) :
  sorted_desc convs = true ->
  let r := mount_listed (Some convs) st in
  conversations (fst r) = convs
  /\ match convs with
     | first :: rest =>
         activeConvId (fst r) = Some (id first)
         /\ activeConvRef (fst r) = Some (id first)
         /\ Forall (newer first) rest
         /\ snd r = [GetMessages (id first)]
     | [] =>
         activeConvId (fst r) = activeConvId st /\ snd r = []
     end
  /\ messages (fst r) = messages st
  /\ fst (mount_listed None st) = st.
Proof.
  intros Hs r. subst r.
  destruct convs as [|first rest]; simpl; repeat split; auto.
  apply sorted_desc_cons in Hs as [_ Hs]. exact Hs.
Qed.

Lemma first_load_selects_most_recent_witness :
  activeConvId (fst (mount_listed (Some [Sample.conv_a; Sample.conv_b]) App.initial))
  = Some (lit "a").
Proof.
  destruct (@first_load_selects_most_recent [Sample.conv_a; Sample.conv_b]
              App.initial eq_refl) as (_ & (H & _) & _).
  exact H.
Defined.

Section WithToString.

Variable ToString : JsAny -> jsstring.

(** X24. Deleting the conversation of a session under way does not end
    the session.  The component goes on loading and the text and the
    trace streamed so far stay on the screen, now under the conversation
    that the delete selected; when the stream is done the reload still
    asks for the messages of the deleted conversation, and when that
    request fails the failure is written to the console and nothing
    else happens: the selection and the message list stay, and the
    deleted conversation is not in the list. *)
Theorem delete_during_stream
  clk clk' message st st' o s (evs : list Event) :
  sendMessage clk message None st = (st', o, Some s) ->
  forallb nonterminal evs = true ->
  let r := apply_events ToString clk' evs {| session := s; app := st'; out := o |} in
  let d := deleteConversation_settled (convId s) true (app r) in
  let r1 := {| session := session r; app := fst d; out := out r ++ snd d |} in
  let r2 := onDone (callbacks clk') r1 in
  let l := loadMessages_settled None (app r2) in
  (isLoading (fst d) = true
   /\ streamingContent (fst d) = streamingContent (app r)
   /\ liveTrace (fst d) = liveTrace (app r)
   /\ ~ In (convId s) (map id (conversations (fst d)))
   /\ activeConvId (fst d) <> Some (convId s))
  /\ (out r2 = out r1 ++ [GetMessages (convId s); ListConversations; GetHealth]
      /\ activeConvId (app r2) = activeConvId (fst d)
      /\ isLoading (app r2) = false)
  /\ (fst l = app r2
      /\ snd l = [ConsoleError (lit "Failed to load messages:")]).
Proof.
  intros Hs Hn r d r1 r2 l.
  pose proof (streaming_run ToString _ clk' _ _ _ _ Hs Hn) as Hr. fold r in Hr.
  pose proof Hs as Ha.
  apply sendMessage_accepted in Ha as (c & Hc & Hne & _ & Es & _).
  assert (Hid : convId s = c) by (rewrite Es; reflexivity).
  simpl in Hc.
  assert (Href : ref_is (convId s) (activeConvRef st) = true).
  { apply ref_is_true. congruence. }
  subst d r1 r2 l. clearbody r. subst r.
  cbn [app session out convId].
  unfold deleteConversation_settled. cbn [activeConvRef conversations].
  rewrite Href.
  assert (Hno : ~ In (convId s) (map id (without (convId s) (conversations st)))).
  { intros Hin. apply in_map_iff in Hin as (x & Hx & Hin).
    apply without_In in Hin as [_ Hin]. contradiction. }
  destruct (without (convId s) (conversations st)) as [|first rest] eqn:Ew.
  - cbn. repeat split; auto; discriminate.
  - cbn. repeat split; auto.
    intros E. injection E as E. apply Hno. left. exact E.
Qed.

End WithToString.

Lemma delete_during_stream_witness :
  let d := deleteConversation_settled (lit "a") true (app Sample.streaming) in
  isLoading (fst d) = true
  /\ streamingContent (fst d) = text (lit "Qu")
  /\ activeConvId (fst d) = Some (lit "b").
Proof.
  cbv zeta.
  destruct (@delete_during_stream Sample.to_text Sample.clk0 Sample.clk1
              Demo.question Sample.idle _ _ _
              [EvTrace (Sample.step_event "orchestrator");
               EvToken (Some (JString (lit "Qu")))] eq_refl eq_refl)
    as ((Hl & Hc & _) & _).
  split; [exact Hl | split; [exact Hc | reflexivity]].
Defined.

End StoreChangeFacts.

(** ** The ids made on the client *)

Module IdFacts.

Lemma lit_inj (s s' : string) : lit s = lit s' -> s = s'.
Proof.
  unfold lit. intros H.
  rewrite <- (string_of_list_ascii_of_string s),
          <- (string_of_list_ascii_of_string s').
  f_equal.
  revert H. generalize (list_ascii_of_string s), (list_ascii_of_string s').
  intros l; induction l as [|a l IH]; intros [|a' l']; simpl; try discriminate.
  - reflexivity.
  - intros H. injection H as Ha Hl. f_equal; [|auto].
    rewrite <- (ascii_N_embedding a), <- (ascii_N_embedding a'). congruence.
Qed.

Lemma to_int_normal (z : Z) :
  Z.to_int z <> Decimal.Pos Decimal.Nil /\ Z.to_int z <> Decimal.Neg Decimal.Nil.
Proof.
  rewrite <- (DecimalZ.of_to z) at 1 2. rewrite DecimalZ.to_of.
  generalize (Z.to_int z). intros d.
  destruct d as [d|d]; unfold Decimal.norm, Decimal.unorm;
    destruct (Decimal.nzhead d); split; discriminate.
Qed.

Lemma of_Z_inj (a b : Z) : of_Z a = of_Z b -> a = b.
Proof.
  unfold of_Z. intros H. apply lit_inj in H.
  apply DecimalZ.to_int_inj.
  destruct (to_int_normal a) as [Ha Ha'], (to_int_normal b) as [Hb Hb'].
  pose proof (NilZero.isi (Z.to_int a) Ha Ha') as Ea.
  pose proof (NilZero.isi (Z.to_int b) Hb Hb') as Eb.
  rewrite H in Ea. congruence.
Qed.

(** X25. The ids made on the client tell messages apart by the
    millisecond and by the kind.  Two messages of the user have the same
    temporary id exactly when they were made in the same millisecond,
    and so have two messages of an error; a temporary id is never the id
    of an error message. *)
Theorem client_ids_differ_by_millisecond
  (clk clk' : Clock) (c c' m m' : jsstring) :
  (m_id (userMsg clk c m) = m_id (userMsg clk' c' m') <-> now_id clk = now_id clk')
  /\ (m_id (errMsg clk c m) = m_id (errMsg clk' c' m') <-> now_id clk = now_id clk')
  /\ m_id (userMsg clk c m) <> m_id (errMsg clk' c' m').
Proof.
  cbn [m_id userMsg errMsg].
  split; [|split].
  - split.
    + intros H. apply app_inv_head in H. apply of_Z_inj; exact H.
    + intros ->; reflexivity.
  - split.
    + intros H. apply app_inv_head in H. apply of_Z_inj; exact H.
    + intros ->; reflexivity.
  - discriminate.
Qed.

End IdFacts.

(** ** Responses that carry no stream *)

Module ResponseFacts.
Import SessionFacts.

Section WithPlatform.

Variable JSON_parse : jsstring -> option JsonValue.
Variable ToString : JsAny -> jsstring.


End WithPlatform.


End ResponseFacts.
